(** * TsukiPad: journal API and client view projections

    A shallow embedding of the Express journal server (the handlers for
    [/api/journal...] and the helpers [getAllJournalEntriesFromFile] and
    [createJournalEntryInFile]) and of the client-side projections
    ([memories] / [reminders] of [App.tsx], [fetchFiveDayForecast] of
    [lib/api/weather.ts], and the two [noteBg] colour mappings), followed
    by the properties of the specification stated against them. *)

From Stdlib Require Import ZArith NArith List String Ascii DecimalString Lia.
From stdpp Require Import base list strings sorting.
From Stdlib Require DecimalN.

Local Open Scope Z_scope.

(** ** JavaScript primitives used by the program *)

Module Js.

(** The decimal digits, [StrWhiteSpaceChar] restricted to ASCII, and
    [parseInt(s, 10)]: leading white space is skipped, one sign is read,
    and the longest prefix of decimal digits is the value; no digit at
    all is [NaN], which is [None] here. *)

Definition is_digit (c : ascii) : bool :=
  (48 <=? nat_of_ascii c)%nat && (nat_of_ascii c <=? 57)%nat.

Definition digit_val (c : ascii) : Z := Z.of_nat (nat_of_ascii c) - 48.

Definition is_space (c : ascii) : bool :=
  let n := nat_of_ascii c in
  ((9 <=? n)%nat && (n <=? 13)%nat) || (n =? 32)%nat.

Fixpoint skip_space (s : string) : string :=
  match s with
  | String c rest => if is_space c then skip_space rest else s
  | EmptyString => s
  end.

(** [digits_prefix acc s]: the value of the longest digit prefix of [s]
    read after the digits already accumulated in [acc]. *)
Fixpoint digits_prefix (acc : Z) (s : string) : Z :=
  match s with
  | String c rest =>
      if is_digit c then digits_prefix (10 * acc + digit_val c) rest else acc
  | EmptyString => acc
  end.

Definition starts_with_digit (s : string) : bool :=
  match s with
  | String c _ => is_digit c
  | EmptyString => false
  end.

Definition parse_unsigned (s : string) : option Z :=
  if starts_with_digit s then Some (digits_prefix 0 s) else None.

Definition parseInt (input : string) : option Z :=
  match skip_space input with
  | String "-" rest => Z.opp <$> parse_unsigned rest
  | String "+" rest => parse_unsigned rest
  | s => parse_unsigned s
  end.

(** [a ?? b]: the left operand unless it is [null] or [undefined].  A
    value read from a JSON body is absent ([Undefined]), [null], or a
    string. *)
Inductive Field : Type :=
| Undefined
| Null
| Str (s : string).

Definition nullish_or (a : Field) (b : option string) : option string :=
  match a with
  | Str s => Some s
  | Undefined | Null => b
  end.

(** [a || b] on a value that is a string or [undefined]: the empty
    string and [undefined] are falsy. *)
Definition or_else (a : option string) (b : string) : string :=
  match a with
  | Some s => if String.eqb s "" then b else s
  | None => b
  end.

(** The names every object literal inherits from [Object.prototype];
    reading one of them from an object that has no own property of that
    name yields a (truthy) function or object. *)
Definition Object_prototype_names : list string :=
  [ "constructor"; "hasOwnProperty"; "isPrototypeOf"; "propertyIsEnumerable";
    "toLocaleString"; "toString"; "valueOf"; "__proto__";
    "__defineGetter__"; "__defineSetter__";
    "__lookupGetter__"; "__lookupSetter__" ]%string.

Definition inherited (k : string) : bool :=
  existsb (String.eqb k) Object_prototype_names.

(** A property name is an array index when it is the canonical decimal
    form of an integer below [2^32 - 1]; own properties with such names
    are enumerated first, in ascending numeric order, and all other
    string names follow in insertion order. *)
Fixpoint all_digits (s : string) : bool :=
  match s with
  | String c rest => is_digit c && all_digits rest
  | EmptyString => true
  end.

Definition is_array_index (k : string) : bool :=
  match k with
  | EmptyString => false
  | String c rest =>
      if Ascii.eqb c "0" then String.eqb rest ""
      else all_digits k && (digits_prefix 0 k <? 2 ^ 32 - 1)
  end.

(** An object used as a map from strings: its own properties in the
    order they were created. *)
Definition Obj (V : Type) : Type := list (string * V).

Fixpoint own {V} (o : Obj V) (k : string) : option V :=
  match o with
  | [] => None
  | (k', v) :: o' => if String.eqb k k' then Some v else own o' k
  end.

(** Writing through a reference to the value of an existing property:
    the property keeps its place. *)
Fixpoint update_own {V} (o : Obj V) (k : string) (f : V -> V) : Obj V :=
  match o with
  | [] => []
  | (k', v) :: o' =>
      if String.eqb k k' then (k', f v) :: o' else (k', v) :: update_own o' k f
  end.

Definition index_le {V} (a b : string * V) : Prop :=
  digits_prefix 0 a.1 <= digits_prefix 0 b.1.

#[global] Instance index_le_dec {V} (a b : string * V) : Decision (index_le a b).
Proof. unfold index_le. apply _. Defined.

Definition Object_values {V} (o : Obj V) : list V :=
  (merge_sort index_le (List.filter (fun kv => is_array_index kv.1) o)).*2
  ++ (List.filter (fun kv => negb (is_array_index kv.1)) o).*2.

(** *** Dates

    A [Date] holds a time value in milliseconds since the epoch, or [NaN]
    ([None]).  [new Date(s)] for a date-only string [YYYY-MM-DD] is
    midnight UTC of that day (ECMAScript, Date Time String Format); what
    an engine makes of a string of that shape naming no calendar day, or
    of any other shape, is implementation-defined and is [NaN] here.
    [new Date(undefined)] is [NaN]. *)

Definition msPerDay : Z := 86400000.

Definition DayFromYear (y : Z) : Z :=
  365 * (y - 1970) + (y - 1969) / 4 - (y - 1901) / 100 + (y - 1601) / 400.

Definition InLeapYear (y : Z) : bool :=
  (y mod 4 =? 0) && (negb (y mod 100 =? 0) || (y mod 400 =? 0)).

Definition DaysInMonth (y m : Z) : Z :=
  if m =? 2 then (if InLeapYear y then 29 else 28)
  else if (m =? 4) || (m =? 6) || (m =? 9) || (m =? 11) then 30
  else 31.

Definition DaysBeforeMonth (y m : Z) : Z :=
  fold_left (fun acc k => acc + DaysInMonth y (Z.of_nat k)) (seq 1 (Z.to_nat m - 1)) 0.

Definition MakeDay (y m d : Z) : Z := DayFromYear y + DaysBeforeMonth y m + (d - 1).

Definition two_digits (a b : ascii) : option Z :=
  if is_digit a && is_digit b then Some (10 * digit_val a + digit_val b) else None.

Definition Date_parse (s : string) : option Z :=
  match s with
  | String y1 (String y2 (String y3 (String y4 (String h1
      (String m1 (String m2 (String h2 (String d1 (String d2 EmptyString))))))))) =>
      if Ascii.eqb h1 "-" && Ascii.eqb h2 "-" then
        yh ← two_digits y1 y2;
        yl ← two_digits y3 y4;
        m ← two_digits m1 m2;
        d ← two_digits d1 d2;
        let y := 100 * yh + yl in
        if (1 <=? m) && (m <=? 12) && (1 <=? d) && (d <=? DaysInMonth y m)
        then Some (MakeDay y m d * msPerDay)
        else None
      else None
  | _ => None
  end.

Definition new_Date (value : option string) : option Z :=
  s ← value; Date_parse s.

(** [d.setHours(0, 0, 0, 0)] where local time is [offset] minutes ahead
    of UTC ([offset] is the negation of [getTimezoneOffset()]): the start
    of the local day the instant falls on. *)
Definition setHours0 (offset : Z) (t : Z) : Z :=
  (t + offset * 60000) / msPerDay * msPerDay - offset * 60000.

End Js.

(** ** Shared types ([types.ts]) *)

Module Types.

(** A journal entry as it sits in [journal_data.txt] and travels to the
    client.  A property whose value is [undefined] is dropped by
    [JSON.stringify] and reads back as [undefined]: [None].  The [id] of
    the client type is never stored; it is the position in the array. *)
Record JournalEntry : Type := mkEntry {
  date : option string;
  title : option string;
  time : option string;
  text : option string;
  color : option string;
  photos : option (list string)
}.

Definition NOTE_COLOR_OPTIONS : list string :=
  [ "red"; "orange"; "yellow"; "green"; "blue"; "purple"; "pink"; "gray" ]%string.

End Types.

(** ** The server *)

Module Server.
Import Js Types.

(** *** The backing file [journal_data.txt]

    The text of the file is represented by what [JSON.parse] makes of it:
    a zero-byte file and any other text that is not JSON raise a
    [SyntaxError]; a JSON document is either a falsy value ([null],
    [false], [0], the empty string) or an array of entries, which is what
    the server writes. *)

Inductive JsonValue : Type :=
| JFalsy
| JArray (entries : list JournalEntry).

Inductive FileText : Type :=
| EmptyText
| Malformed
| Json (v : JsonValue).

Inductive File : Type :=
| Missing
| Present (data : FileText).

Inductive Error : Type :=
| ENOENT
| SyntaxError
| TypeError
| RenameFailed (ref : string)
| WriteFailed.

Inductive Result (A : Type) : Type :=
| Ok (a : A)
| Throw (e : Error).
Arguments Ok {A} a.
Arguments Throw {A} e.

(** *** Asynchronous code over the file: state and exceptions *)

Definition Async (A : Type) : Type := File -> Result A * File.

Definition ret {A} (a : A) : Async A := fun fs => (Ok a, fs).

Definition throw {A} (e : Error) : Async A := fun fs => (Throw e, fs).

Definition bind {A B} (m : Async A) (k : A -> Async B) : Async B :=
  fun fs =>
    match m fs with
    | (Ok a, fs') => k a fs'
    | (Throw e, fs') => (Throw e, fs')
    end.

Definition lift {A} (r : Result A) : Async A := fun fs => (r, fs).

Notation "'await' x <- m ; k" := (bind m (fun x => k))
  (at level 10, x name, m at level 100, k at level 200).

(** *** What the handlers cannot decide themselves *)

(** The result of [fs.writeFile]: the new content is in place, or the
    call rejects and the file is left as the operating system left it. *)
Inductive WriteOutcome : Type :=
| Written
| Rejected (leftover : File).

(** - [Date_now i]: the clock read by the [i]-th callback of [files.map];
    - [rename_ok i]: whether [fs.rename] of the [i]-th file succeeds;
    - [settles]: the order in which the pending renames settle: at each
      step the head, taken modulo the number of renames still pending,
      picks the one that settles next;
    - [write]: the outcome of [fs.writeFile]. *)
Record Env : Type := mkEnv {
  Date_now : nat -> N;
  rename_ok : nat -> bool;
  settles : list nat;
  write : WriteOutcome
}.

Definition fs_readFile : Async FileText :=
  fun fs =>
    match fs with
    | Missing => (Throw ENOENT, fs)
    | Present data => (Ok data, fs)
    end.

Definition JSON_parse (data : FileText) : Result JsonValue :=
  match data with
  | EmptyText | Malformed => Throw SyntaxError
  | Json v => Ok v
  end.

Definition fs_writeFile (env : Env) (entries : list JournalEntry) : Async unit :=
  fun fs =>
    match write env with
    | Written => (Ok tt, Present (Json (JArray entries)))
    | Rejected leftover => (Throw WriteFailed, leftover)
    end.

(** The file as the server leaves it after a successful write. *)
Definition stored (entries : list JournalEntry) : File :=
  Present (Json (JArray entries)).

(** *** Responses *)

Inductive Payload : Type :=
| EntriesJson (entries : list JournalEntry)
| EntryJson (entry : JournalEntry)
| SuccessJson
| ErrorJson (message : string).

Record Response : Type := mkResponse {
  status : nat;
  payload : Payload
}.

Definition res_json (p : Payload) : Response := mkResponse 200 p.

Definition res_status_json (code : nat) (message : string) : Response :=
  mkResponse code (ErrorJson message).

(** [try { ... } catch (error) { res.status(500).json(...) }] *)
Definition try_catch (body : Async Response) (message : string) : File -> Response * File :=
  fun fs =>
    match body fs with
    | (Ok r, fs') => (r, fs')
    | (Throw _, fs') => (res_status_json 500 message, fs')
    end.

(** *** Helpers *)

Definition getAllJournalEntriesFromFile : Async (list JournalEntry) :=
  await data <- fs_readFile;
  await v <- lift (JSON_parse data);
  ret (match v with JArray entries => entries | JFalsy => [] end).

(** *** [GET /api/journal/all] *)

Definition get_journal_all : File -> Response * File :=
  try_catch
    (await allEntries <- getAllJournalEntriesFromFile;
     ret (res_json (EntriesJson allEntries)))
    "Failed to fetch journal entries".

(** *** [PUT /api/journal/entry/:index] *)

Record UpdateBody : Type := mkBody {
  body_title : Field;
  body_time : Field;
  body_text : Field
}.

Definition merge_entry (entry : JournalEntry) (body : UpdateBody) : JournalEntry :=
  {| date := date entry;
     title := nullish_or (body_title body) (title entry);
     time := nullish_or (body_time body) (time entry);
     text := nullish_or (body_text body) (text entry);
     color := color entry;
     photos := photos entry |}.

Definition put_journal_entry (env : Env) (index_param : string) (body : UpdateBody)
  : File -> Response * File :=
  try_catch
    (match parseInt index_param with
     | None => ret (res_status_json 400 "Invalid index")
     | Some index =>
         await entries <- getAllJournalEntriesFromFile;
         if (index <? 0) || (index >=? Z.of_nat (length entries))
         then ret (res_status_json 404 "Entry not found")
         else
           match entries !! Z.to_nat index with
           | None => throw TypeError (* not reached: the index is in range *)
           | Some entry =>
               let entries' := <[Z.to_nat index := merge_entry entry body]> entries in
               await _ <- fs_writeFile env entries';
               match entries' !! Z.to_nat index with
               | Some updated => ret (res_json (EntryJson updated))
               | None => throw TypeError
               end
           end
     end)
    "Failed to update journal entry".

(** What the specification asks of one field of a partial update: a
    string that is given, the empty one included, becomes the value; a
    field that is absent (or [null]) leaves the value as it was. *)
Definition merged_field (given : Field) (old new : option string) : Prop :=
  (∀ s, given = Str s → new = Some s)
  ∧ (given = Undefined → new = old)
  ∧ (given = Null → new = old).

(** *** [DELETE /api/journal/entry/:index] *)

Definition delete_journal_entry (env : Env) (index_param : string)
  : File -> Response * File :=
  try_catch
    (match parseInt index_param with
     | None => ret (res_status_json 400 "Invalid index")
     | Some index =>
         await entries <- getAllJournalEntriesFromFile;
         if (index <? 0) || (index >=? Z.of_nat (length entries))
         then ret (res_status_json 404 "Entry not found")
         else
           let entries' := delete (Z.to_nat index) entries in
           await _ <- fs_writeFile env entries';
           ret (res_json SuccessJson)
     end)
    "Failed to delete journal entry".

(** *** [createJournalEntryInFile] and [POST /api/journal] *)

(** A file as multer hands it over: the name the client gave it and the
    temporary location it was received at. *)
Record UploadedFile : Type := mkFile {
  originalname : string;
  path : string
}.

Definition uniqueFileName (now : N) (file : UploadedFile) : string :=
  NilZero.string_of_uint (N.to_uint now) +:+ "-" +:+ originalname file.

(** One callback of [files.map(async (file) => ...)], suspended at its
    [await fs.rename(...)]: the reference it pushes once the rename has
    succeeded, and whether the rename succeeds. *)
Record Rename : Type := mkRename {
  reference : string;
  succeeds : bool
}.

(** [files.map] runs every callback up to its first [await], in the order
    of the array. *)
Definition start_renames (env : Env) (files : list UploadedFile) : list Rename :=
  imap (fun i file =>
          {| reference := "/uploads/" +:+ uniqueFileName (Date_now env i) file;
             succeeds := rename_ok env i |}) files.

(** [Promise.all]: the pending renames settle one at a time, in the order
    the environment picks.  A rename that succeeds resumes its callback,
    which pushes its reference; the first one that fails rejects the
    whole [Promise.all].  [remaining] is the count of promises not yet
    settled. *)
Fixpoint settle (remaining : nat) (order : list nat) (pending : list Rename)
    (photoReferences : list string) : Result (list string) :=
  match remaining with
  | O => Ok photoReferences
  | S remaining' =>
      let k := (hd O order mod length pending)%nat in
      match pending !! k with
      | Some r =>
          if succeeds r
          then settle remaining' (tl order) (delete k pending)
                      (photoReferences ++ [reference r])
          else Throw (RenameFailed (reference r))
      | None => Ok photoReferences
      end
  end.

Definition Promise_all (order : list nat) (pending : list Rename) : Result (list string) :=
  settle (length pending) order pending [].

Definition newEntry (date title time text color : option string)
    (photoReferences : list string) : JournalEntry :=
  {| Types.date := date; Types.title := title; Types.time := time;
     Types.text := text; Types.color := Some (or_else color "blue");
     Types.photos := Some photoReferences |}.

Definition createJournalEntryInFile (env : Env)
    (date title time text color : option string) (photoFiles : list UploadedFile)
  : Async unit :=
  await existingEntries <- getAllJournalEntriesFromFile;
  await photoReferences <- lift (Promise_all (settles env) (start_renames env photoFiles));
  await _ <- fs_writeFile env
               (existingEntries ++ [newEntry date title time text color photoReferences]);
  ret tt.

(** The fields of the multipart form ([req.body]) and the files multer
    stored for it ([req.files]). *)
Record CreateRequest : Type := mkCreate {
  req_date : option string;
  req_title : option string;
  req_time : option string;
  req_text : option string;
  req_color : option string;
  req_files : list UploadedFile
}.

(** The entry a request gives rise to, and the references of its files
    in the order of upload. *)
Definition entry_of (req : CreateRequest) (photoReferences : list string) : JournalEntry :=
  newEntry (req_date req) (req_title req) (req_time req) (req_text req)
           (req_color req) photoReferences.

Definition references_in_upload_order (env : Env) (files : list UploadedFile)
  : list string :=
  reference <$> start_renames env files.

Definition post_journal (env : Env) (req : CreateRequest) : File -> Response * File :=
  try_catch
    (await _ <- createJournalEntryInFile env (req_date req) (req_title req)
                  (req_time req) (req_text req) (req_color req) (req_files req);
     ret (res_json SuccessJson))
    "Failed to create journal entry".

End Server.

(** ** The client *)

(** *** [App.tsx]: memories and reminders *)

Module App.
Import Js Types.

(** [today]: [new Date()] with [setHours(0, 0, 0, 0)]. *)
Definition today (offset now : Z) : Z := setHours0 offset now.

(** The two filter callbacks.  A comparison with [NaN] is false. *)
Definition is_memory (offset today : Z) (e : JournalEntry) : bool :=
  match new_Date (date e) with
  | Some d => setHours0 offset d <? today
  | None => false
  end.

Definition is_reminder (offset today : Z) (e : JournalEntry) : bool :=
  match new_Date (date e) with
  | Some d => setHours0 offset d >=? today
  | None => false
  end.

Definition memories (offset today : Z) (calendarEntries : list JournalEntry) :=
  List.filter (is_memory offset today) calendarEntries.

Definition reminders (offset today : Z) (calendarEntries : list JournalEntry) :=
  List.filter (is_reminder offset today) calendarEntries.

End App.

(** *** [lib/api/weather.ts]: the five-day forecast *)

Module Weather.
Import Js.

Section Aggregation.

(** Temperatures are numbers compared with [<]; the aggregation uses
    nothing else of them. *)
Context {Temp : Type}.
Variable lt : Temp -> Temp -> bool.

Definition Math_min (a b : Temp) : Temp := if lt b a then b else a.
Definition Math_max (a b : Temp) : Temp := if lt a b then b else a.

(** One element of [data.list]: [dt_txt], [main.temp],
    [weather[0].main] and [weather[0].icon]. *)
Record ForecastItem : Type := mkItem {
  dt_txt : string;
  main_temp : Temp;
  weather0_main : string;
  weather0_icon : string
}.

Record WeatherSummary : Type := mkSummary {
  date : string;
  tempMin : Temp;
  tempMax : Temp;
  weather : string;
  icon : string
}.

(** [s.split(' ')[0]] *)
Fixpoint before_space (s : string) : string :=
  match s with
  | String c rest => if Ascii.eqb c " " then EmptyString else String c (before_space rest)
  | EmptyString => EmptyString
  end.

(** The body of [data.list.forEach].  [dailyMap[date]] is truthy when
    [dailyMap] has the property or inherits it; in the second case the
    [else] branch writes to the inherited object and [dailyMap] gets no
    property. *)
Definition visit (dailyMap : Obj WeatherSummary) (item : ForecastItem)
  : Obj WeatherSummary :=
  let date_ := before_space (dt_txt item) in
  let temp := main_temp item in
  match own dailyMap date_ with
  | Some _ =>
      update_own dailyMap date_ (fun s =>
        {| date := date s;
           tempMin := Math_min (tempMin s) temp;
           tempMax := Math_max (tempMax s) temp;
           weather := weather s;
           icon := icon s |})
  | None =>
      if inherited date_ then dailyMap
      else dailyMap ++ [(date_, {| date := date_; tempMin := temp; tempMax := temp;
                                   weather := weather0_main item;
                                   icon := weather0_icon item |})]
  end.

(** [fetchFiveDayForecast] after the response has arrived: [data_list]
    is [data.list], [None] when the field is missing. *)
Definition fetchFiveDayForecast (data_list : option (list ForecastItem))
  : list WeatherSummary :=
  match data_list with
  | None => []
  | Some items =>
      let dailyMap := fold_left visit items [] in
      take 5 (Object_values dailyMap)
  end.

(** *** What the aggregation is to compute

    The date portion of a sample; the samples of one date, in input
    order; the distinct dates in the order they are first seen; and
    what it means for a summary to summarise the samples of its date. *)



Definition le (a b : Temp) : Prop := lt b a = false.

Definition is_min (m : Temp) (ts : list Temp) : Prop := m ∈ ts ∧ Forall (le m) ts.

Definition is_max (m : Temp) (ts : list Temp) : Prop :=
  m ∈ ts ∧ Forall (fun t => le t m) ts.


End Aggregation.

Arguments ForecastItem Temp : clear implicits.
Arguments WeatherSummary Temp : clear implicits.



(** A property name that is neither an array index nor inherited from
    [Object.prototype]; every [YYYY-MM-DD] date is one. *)
Definition plain_key (k : string) : bool :=
  negb (is_array_index k) && negb (inherited k).

End Weather.

(** *** The two colour mappings *)

Module NoteColors.
Import Js.

Record NoteColorConfig : Type := mkConfig {
  classes : string;
  hex : string
}.

Definition NOTE_COLORS : Obj NoteColorConfig :=
  [ ("red", mkConfig "bg-red-100 border-red-200 text-red-900" "#ef4444");
    ("orange", mkConfig "bg-orange-100 border-orange-200 text-orange-900" "#f97316");
    ("yellow", mkConfig "bg-yellow-100 border-yellow-200 text-yellow-900" "#eab308");
    ("green", mkConfig "bg-green-100 border-green-200 text-green-900" "#22c55e");
    ("blue", mkConfig "bg-blue-100 border-blue-200 text-blue-900" "#3b82f6");
    ("purple", mkConfig "bg-purple-100 border-purple-200 text-purple-900" "#a855f7");
    ("pink", mkConfig "bg-pink-100 border-pink-200 text-pink-900" "#ec4899");
    ("gray", mkConfig "bg-gray-100 border-gray-200 text-gray-900" "#9ca3af") ]%string.

Definition DEFAULT_COLOR : string := "blue".

(** What [NOTE_COLORS[name]] evaluates to: a configuration, a member of
    [Object.prototype], or [undefined]. *)
Inductive Member : Type :=
| Config (c : NoteColorConfig)
| Inherited
| NoMember.

(** What a call does: return a string, return [undefined], or throw the
    [TypeError] of reading a property of [undefined]. *)
Inductive Outcome : Type :=
| Returns (s : string)
| ReturnsUndefined
| ThrowsTypeError.

Definition getNoteColorConfig (color : option string) : Member :=
  let name := default DEFAULT_COLOR color in
  match own NOTE_COLORS name with
  | Some c => Config c
  | None => if inherited name then Inherited else NoMember
  end.

Definition noteBg (color : option string) : Outcome :=
  match getNoteColorConfig color with
  | Config c => Returns (classes c)
  | Inherited => ReturnsUndefined
  | NoMember => ThrowsTypeError
  end.

Definition colorToHex (color : option string) : Outcome :=
  match getNoteColorConfig color with
  | Config c => Returns (hex c)
  | Inherited => ReturnsUndefined
  | NoMember => ThrowsTypeError
  end.

End NoteColors.

Module MonthlyCalendar.

(** The [switch] of [MonthlyCalendar.tsx]; [undefined] matches no [case]. *)
Definition noteBg (color : option string) : string :=
  match color with
  | Some c =>
      if String.eqb c "red" then "bg-red-100 border-red-200 text-red-900"
      else if String.eqb c "orange" then "bg-orange-100 border-orange-200 text-orange-900"
      else if String.eqb c "yellow" then "bg-yellow-100 border-yellow-200 text-yellow-900"
      else if String.eqb c "green" then "bg-green-100 border-green-200 text-green-900"
      else if String.eqb c "blue" then "bg-blue-100 border-blue-200 text-blue-900"
      else if String.eqb c "purple" then "bg-purple-100 border-purple-200 text-purple-900"
      else if String.eqb c "pink" then "bg-pink-100 border-pink-200 text-pink-900"
      else if String.eqb c "gray" then "bg-gray-100 border-gray-200 text-gray-900"
      else "bg-blue-100 border-blue-200 text-blue-900"
  | None => "bg-blue-100 border-blue-200 text-blue-900"
  end.

End MonthlyCalendar.

(** ** Sample data *)

Module Sample.
Import Js Types Server.

Definition sample_entry (d t : string) : JournalEntry :=
  {| date := Some d; title := Some t; time := Some "09:30"; text := Some "notes";
     color := Some "green"; photos := Some ["/uploads/1-a.png"]%string |}.

Definition sample_entries : list JournalEntry :=
  [ sample_entry "2025-06-14" "first"; sample_entry "2025-06-15" "second" ].

(** An environment in which every rename succeeds, the renames settle in
    the order they were started and the write succeeds. *)
Definition quiet_env : Env :=
  {| Date_now := fun _ => 1750003200000%N; rename_ok := fun _ => true;
     settles := []; write := Written |}.

Definition two_photos : list UploadedFile :=
  [ mkFile "a.png" "uploads/photos-1750003199000-11";
    mkFile "b.png" "uploads/photos-1750003199000-22" ].

(** The rename of the second file settles before the rename of the
    first. *)
Definition second_first_env : Env :=
  {| Date_now := fun _ => 1750003200000%N; rename_ok := fun _ => true;
     settles := [1; 0]%nat; write := Written |}.

(** The rename of the second file fails. *)
Definition failing_env : Env :=
  {| Date_now := fun _ => 1750003200000%N; rename_ok := fun i => negb (i =? 1)%nat;
     settles := []; write := Written |}.

Definition request (title color : option string) (files : list UploadedFile)
  : CreateRequest :=
  {| req_date := Some "2025-06-15"; req_title := title; req_time := Some "18:00";
     req_text := Some "dinner"; req_color := color; req_files := files |}.

(** An entry carrying nothing but a date. *)
Definition dated (d : option string) : JournalEntry :=
  {| date := d; title := Some "note"; time := None; text := None;
     color := Some "blue"; photos := Some [] |}.

(** Eastern Daylight Time, four hours behind UTC, and the instant
    2025-06-15T16:00:00Z, which is noon of 15 June there. *)
Definition edt : Z := -240.
Definition noon_15_june_edt : Z := 1750003200000.

(** The three samples of 15 June of the specification, and one of the
    day after. *)
Definition samples : list (Weather.ForecastItem Z) :=
  [ Weather.mkItem "2025-06-15 09:00:00" 18 "Clouds" "04d";
    Weather.mkItem "2025-06-15 12:00:00" 22 "Rain" "10d";
    Weather.mkItem "2025-06-16 00:00:00" 12 "Clear" "01n";
    Weather.mkItem "2025-06-15 15:00:00" 15 "Clear" "01d" ].

End Sample.

(** ** The remaining routes of the server *)

Module Routes.
Import Js Types Server.

(** *** [GET /api/journal/:date]

    [entries.find((entry) => entry.date === date) || null]: the first
    entry whose date is the string of the route; an entry without a date
    never matches. *)

Definition getJournalEntryByDateFromFile (date : string) : Async (option JournalEntry) :=
  await data <- fs_readFile;
  await v <- lift (JSON_parse data);
  let entries := match v with JArray entries => entries | JFalsy => [] end in
  ret (snd <$> list_find (fun entry => Types.date entry = Some date) entries).

(** The body of the answer: the entry found or [null], or the error. *)
Inductive DatePayload : Type :=
| JournalEntryJson (journalEntry : option JournalEntry)
| DateErrorJson (message : string).

Record DateResponse : Type := mkDateResponse {
  date_status : nat;
  date_payload : DatePayload
}.

Definition get_journal_by_date (date : string) : File -> DateResponse * File :=
  fun fs =>
    match getJournalEntryByDateFromFile date fs with
    | (Ok journalEntry, fs') => (mkDateResponse 200 (JournalEntryJson journalEntry), fs')
    | (Throw _, fs') =>
        (mkDateResponse 500 (DateErrorJson "Failed to fetch journal entry"), fs')
    end.

(** *** [GET /api/calendar/week]

    The server's clock reads [now] and its local time is [offset] minutes
    ahead of UTC.  [getDay] is the day of the week of the local day, 0 for
    Sunday (1 January 1970 was a Thursday).  [x.setDate(y.getDate() + k)],
    for [x] and [y] on the same local day, moves [x] by [k] days. *)

Definition getDay (offset t : Z) : Z :=
  ((t + offset * 60000) / msPerDay + 4) mod 7.

Definition setDate_by (t k : Z) : Z := t + k * msPerDay.

Definition in_week (startOfWeek endOfWeek : Z) (entry : JournalEntry) : bool :=
  match new_Date (Types.date entry) with
  | Some entryDate => (entryDate >=? startOfWeek) && (entryDate <? endOfWeek)
  | None => false
  end.

Definition startOfWeek (offset now : Z) : Z :=
  setDate_by (setHours0 offset now) (- getDay offset now).

Definition endOfWeek (offset now : Z) : Z :=
  setDate_by (startOfWeek offset now) 7.

Definition get_calendar_week (offset now : Z) : File -> Response * File :=
  try_catch
    (await entries <- getAllJournalEntriesFromFile;
     let thisWeek :=
       List.filter (in_week (startOfWeek offset now) (endOfWeek offset now)) entries in
     ret (res_json (EntriesJson thisWeek)))
    "Failed to fetch weekly calendar".

End Routes.

(** ** [lib/api/journal.ts]: the client's calls *)

Module Api.
Import Js Types Server.

(** [`${id}`] for an index: its decimal digits. *)
Definition String_of (id : N) : string := NilZero.string_of_uint (N.to_uint id).

(** How a promise of the client settles. *)
Inductive Settled (A : Type) : Type :=
| Resolved (a : A)
| RejectedWith (message : string).
Arguments Resolved {A} a.
Arguments RejectedWith {A} message.

(** [res.ok]: the status is in the range 200-299. *)
Definition ok (res : Response) : bool :=
  (200 <=? status res)%nat && (status res <=? 299)%nat.

(** The calls below are those of a client whose requests reach the
    server.  [fetchJournalEntries]: [res.json()] of an answer that is
    [ok]. *)
Definition fetchJournalEntries (fs : File) : Settled Payload * File :=
  let (res, fs') := get_journal_all fs in
  (if ok res then Resolved (payload res)
   else RejectedWith "Failed to fetch journal entries", fs').

Definition createJournalEntry (env : Env) (formData : CreateRequest) (fs : File)
  : Settled unit * File :=
  let (res, fs') := post_journal env formData fs in
  (if ok res then Resolved tt else RejectedWith "Failed to create journal entry", fs').

(** The body [{ title?, time?, text? }] of an update.  [JSON.stringify]
    leaves a property out when its value is [undefined], and the server
    reads the others back as strings. *)
Record Changes : Type := mkChanges {
  new_title : option string;
  new_time : option string;
  new_text : option string
}.

Definition sent (value : option string) : Field :=
  match value with
  | Some s => Str s
  | None => Undefined
  end.

Definition JSON_body (body : Changes) : UpdateBody :=
  {| body_title := sent (new_title body);
     body_time := sent (new_time body);
     body_text := sent (new_text body) |}.

Definition updateJournalEntry (env : Env) (id : N) (body : Changes) (fs : File)
  : Settled unit * File :=
  let (res, fs') := put_journal_entry env (String_of id) (JSON_body body) fs in
  (if ok res then Resolved tt else RejectedWith "Failed to update journal entry", fs').

Definition deleteJournalEntry (env : Env) (id : N) (fs : File) : Settled unit * File :=
  let (res, fs') := delete_journal_entry env (String_of id) fs in
  (if ok res then Resolved tt else RejectedWith "Failed to delete journal entry", fs').

End Api.

(** ** [App.tsx]: loading the entries and acting on a note *)

Module AppState.
Import Js Types Server Api.

(** An entry as the client holds it: [{ ...entry, id: index }]. *)
Record Note : Type := mkNote {
  id : nat;
  entry : JournalEntry
}.

Definition withIds (data : list JournalEntry) : list Note := imap mkNote data.

(** [loadJournalEntries]: the state [calendarEntries] is replaced when the
    entries arrive; when the call rejects, or what arrived is not an array
    (so that [data.map] throws), the error is logged and the state stays. *)
Definition loadJournalEntries (fs : File) (calendarEntries : list Note)
  : list Note * File :=
  match fetchJournalEntries fs with
  | (Resolved (EntriesJson data), fs') => (withIds data, fs')
  | (_, fs') => (calendarEntries, fs')
  end.

(** [onUpdateNote] and [onDeleteNote] of the panel: the call, then
    [handleNoteSaved], which loads the entries again.  When the call
    rejects the handler throws and nothing is loaded. *)
Definition onUpdateNote (env : Env) (id : nat) (body : Changes)
    (fs : File) (calendarEntries : list Note) : Settled unit * list Note * File :=
  match updateJournalEntry env (N.of_nat id) body fs with
  | (Resolved _, fs') =>
      let (loaded, fs'') := loadJournalEntries fs' calendarEntries in
      (Resolved tt, loaded, fs'')
  | (RejectedWith message, fs') => (RejectedWith message, calendarEntries, fs')
  end.

Definition onDeleteNote (env : Env) (id : nat)
    (fs : File) (calendarEntries : list Note) : Settled unit * list Note * File :=
  match deleteJournalEntry env (N.of_nat id) fs with
  | (Resolved _, fs') =>
      let (loaded, fs'') := loadJournalEntries fs' calendarEntries in
      (Resolved tt, loaded, fs'')
  | (RejectedWith message, fs') => (RejectedWith message, calendarEntries, fs')
  end.

End AppState.

(** ** [RightPanel.tsx] *)

Module RightPanel.
Import Js Types Server Api AppState.

(** [entries.find(e => e.id === noteId) ?? null] *)
Definition selectedNote (noteId : option nat) (entries : list Note) : option Note :=
  match noteId with
  | None => None
  | Some wanted => List.find (fun e => (id e =? wanted)%nat) entries
  end.

(** [entries.filter(e => e.date === date)], and nothing when [date] is
    [null] or empty. *)
Definition dayEntries (date : option string) (entries : list Note) : list Note :=
  match date with
  | None => []
  | Some d =>
      if String.eqb d "" then []
      else List.filter (fun e => match Types.date (entry e) with
                                 | Some d' => String.eqb d' d
                                 | None => false
                                 end) entries
  end.

(** The label of the button that opens the creation form. *)
Definition createLabel (offset now : Z) (date : option string) : string :=
  match date with
  | None => "Add"
  | Some d =>
      if String.eqb d "" then "Add"
      else
        let t := setHours0 offset now in
        match new_Date (Some d) with
        | Some parsed => if setHours0 offset parsed <? t then "Add Memory" else "Add Reminder"
        | None => "Add Reminder"
        end
  end.









End RightPanel.

(** ** [MonthlyCalendar.tsx]: what a day cell shows *)

Module DayCells.
Import Js Types AppState.

(** The body of [journalEntries.forEach]: an entry without a date, or
    with an empty one, is skipped; otherwise it is pushed onto the array of
    its date, which is created on first use.  When the date is a name that
    every object inherits, [entriesByDate[entry.date]] is already truthy, no
    array is created, and [push] is called on something that has none: the
    component throws, which is [None] here. *)
Definition group_entry (entriesByDate : Obj (list Note)) (e : Note)
  : option (Obj (list Note)) :=
  match date (entry e) with
  | None => Some entriesByDate
  | Some d =>
      if String.eqb d "" then Some entriesByDate
      else
        match own entriesByDate d with
        | Some _ => Some (update_own entriesByDate d (fun notes => notes ++ [e]))
        | None =>
            if inherited d then None
            else Some (entriesByDate ++ [(d, [e])])
        end
  end.

Definition entriesByDate (journalEntries : list Note) : option (Obj (list Note)) :=
  fold_left (fun acc e => acc ≫= fun o => group_entry o e) journalEntries (Some []).

(** [entriesByDate[cell.date] || []]; an inherited member is not a list of
    notes ([None]). *)
Definition cell_entries (entriesByDate : Obj (list Note)) (cell_date : string)
  : option (list Note) :=
  match own entriesByDate cell_date with
  | Some notes => Some notes
  | None => if inherited cell_date then None else Some []
  end.

(** [forecastByDate] of [App.tsx]: [map[day.date] = day] for every summary
    with a date.  An assignment to ["__proto__"] does not create a property
    but replaces the prototype of the map; the map is then no longer a
    plain one ([None]). *)
Definition set_own {V} (o : Obj V) (k : string) (v : V) : Obj V :=
  match own o k with
  | Some _ => update_own o k (fun _ => v)
  | None => o ++ [(k, v)]
  end.

Definition forecastByDate {Temp} (forecast : list (Weather.WeatherSummary Temp))
  : option (Obj (Weather.WeatherSummary Temp)) :=
  fold_left (fun acc day =>
               acc ≫= fun map =>
                 if String.eqb (Weather.date day) "" then Some map
                 else if String.eqb (Weather.date day) "__proto__" then None
                 else Some (set_own map (Weather.date day) day))
            forecast (Some []).

(** [cell.date ? forecastByDate[cell.date] : undefined]: the summary or
    [undefined] ([Some None]); an inherited member is no summary
    ([None]). *)
Definition cell_weather {Temp} (map : Obj (Weather.WeatherSummary Temp))
    (cell_date : string) : option (option (Weather.WeatherSummary Temp)) :=
  if String.eqb cell_date "" then Some None
  else
    match own map cell_date with
    | Some day => Some (Some day)
    | None => if inherited cell_date then None else Some None
    end.

(** The summaries of [forecast] dated [d], in their order. *)
Definition dated_summaries {Temp} (d : string)
    (forecast : list (Weather.WeatherSummary Temp)) : list (Weather.WeatherSummary Temp) :=
  List.filter (fun day => String.eqb (Weather.date day) d) forecast.

End DayCells.

(** ** Dates read and written through local time

    [new Date(year, monthIndex, day)] is local midnight of a day, and
    [getFullYear], [getMonth], [getDate] and [getDay] read a date in local
    time again; with a fixed offset from UTC the offset cancels, so a date
    is represented here by the number of its local day, counted from
    1 January 1970.  The definitions are those of ECMAScript: [MakeDay]
    with a month index that may leave 0..11, [YearFromTime],
    [MonthFromTime], [DateFromTime] and [WeekDay]. *)

Module LocalDate.
Import Js.

(** A year from 0 to 99 given to the constructor means 1900 + year. *)
Definition MakeFullYear (year : Z) : Z :=
  if (0 <=? year) && (year <=? 99) then 1900 + year else year.

Definition new_Date_ymd (year monthIndex day : Z) : Z :=
  let ym := MakeFullYear year + monthIndex / 12 in
  let mn := monthIndex mod 12 in
  MakeDay ym (mn + 1) day.

(** The largest year whose first day is not after day [n]: an estimate
    from the mean length of a year, corrected by at most one. *)
Definition YearFromDay (n : Z) : Z :=
  let y := 1970 + 400 * n / 146097 in
  if n <? DayFromYear y then y - 1
  else if DayFromYear (y + 1) <=? n then y + 1
  else y.

Definition DayWithinYear (n : Z) : Z := n - DayFromYear (YearFromDay n).

Definition leap_day (n : Z) : Z := if InLeapYear (YearFromDay n) then 1 else 0.

Definition MonthFromDay (n : Z) : Z :=
  let d := DayWithinYear n in
  let leap := leap_day n in
  if d <? 31 then 0
  else if d <? 59 + leap then 1
  else if d <? 90 + leap then 2
  else if d <? 120 + leap then 3
  else if d <? 151 + leap then 4
  else if d <? 181 + leap then 5
  else if d <? 212 + leap then 6
  else if d <? 243 + leap then 7
  else if d <? 273 + leap then 8
  else if d <? 304 + leap then 9
  else if d <? 334 + leap then 10
  else 11.

Definition DateFromDay (n : Z) : Z :=
  let d := DayWithinYear n in
  let leap := leap_day n in
  match MonthFromDay n with
  | 0 => d + 1
  | 1 => d - 30
  | 2 => d - 58 - leap
  | 3 => d - 89 - leap
  | 4 => d - 119 - leap
  | 5 => d - 150 - leap
  | 6 => d - 180 - leap
  | 7 => d - 211 - leap
  | 8 => d - 242 - leap
  | 9 => d - 272 - leap
  | 10 => d - 303 - leap
  | _ => d - 333 - leap
  end.

(** 0 is Sunday; 1 January 1970 was a Thursday. *)
Definition WeekDay (n : Z) : Z := (n + 4) mod 7.

(** [String(n)] and [`${n}`] for an integer. *)
Definition String_of_Z (n : Z) : string :=
  if n <? 0 then "-" +:+ Api.String_of (Z.to_N (- n)) else Api.String_of (Z.to_N n).

End LocalDate.

(** ** The month grids of [MonthlyCalendar.tsx] and [MiniMonth.tsx] *)

Module MonthGrid.
Import Js LocalDate.

(** [s.padStart(2, '0')] *)
Definition padStart2 (s : string) : string :=
  match s with
  | EmptyString => "00"
  | String c EmptyString => String "0" s
  | _ => s
  end.

(** [formatDate] of [MonthlyCalendar.tsx] *)
Definition formatDate (d : Z) : string :=
  String_of_Z (YearFromDay d) +:+ "-" +:+ padStart2 (String_of_Z (MonthFromDay d + 1))
  +:+ "-" +:+ padStart2 (String_of_Z (DateFromDay d)).

(** A cell of the calendar: [{ date, dayOfMonth }], both [null] in a
    blank. *)
Record Cell : Type := mkCell {
  date : option string;
  dayOfMonth : option Z
}.

(** [for (let day = 1; day <= daysInMonth; day++)] *)
Definition days_up_to (daysInMonth : Z) : list Z :=
  Z.of_nat <$> seq 1 (Z.to_nat daysInMonth).

Definition cells (currentMonth : Z) : list Cell :=
  let year := YearFromDay currentMonth in
  let monthIndex := MonthFromDay currentMonth in
  let firstOfMonth := new_Date_ymd year monthIndex 1 in
  let firstWeekday := WeekDay firstOfMonth in
  let daysInMonth := DateFromDay (new_Date_ymd year (monthIndex + 1) 0) in
  replicate (Z.to_nat firstWeekday) (mkCell None None)
  ++ ((fun day => mkCell (Some (formatDate (new_Date_ymd year monthIndex day))) (Some day))
        <$> days_up_to daysInMonth).

(** [pad2] and [toYMD] of [MiniMonth.tsx], and its cells
    [{ day, dateStr }]. *)
Definition pad2 (n : Z) : string :=
  if n <? 10 then "0" +:+ String_of_Z n else String_of_Z n.

Definition toYMD (d : Z) : string :=
  String_of_Z (YearFromDay d) +:+ "-" +:+ pad2 (MonthFromDay d + 1)
  +:+ "-" +:+ pad2 (DateFromDay d).

Record MiniCell : Type := mkMiniCell {
  day : option Z;
  dateStr : option string
}.

Definition mini_cells (currentMonth : Z) : list MiniCell :=
  let year := YearFromDay currentMonth in
  let month := MonthFromDay currentMonth in
  let first := new_Date_ymd year month 1 in
  let startDay := WeekDay first in
  let daysInMonth := DateFromDay (new_Date_ymd year (month + 1) 0) in
  replicate (Z.to_nat startDay) (mkMiniCell None None)
  ++ ((fun day => mkMiniCell (Some day) (Some (toYMD (new_Date_ymd year month day))))
        <$> days_up_to daysInMonth).

End MonthGrid.

(** ** [App.tsx]: moving to the previous and the next month

    [d.setMonth(k)] keeps the year, the day of the month and the time of
    day of [d] and replaces the month index, which may leave 0..11; a day
    of the month the new month does not have runs on into the month after
    it ([MakeDay]). *)

Module Navigation.
Import Js LocalDate.

Definition setMonth (d : Z) (month : Z) : Z :=
  MakeDay (YearFromDay d + month / 12) (month mod 12 + 1) (DateFromDay d).

Definition goToPrevMonth (prev : Z) : Z := setMonth prev (MonthFromDay prev - 1).

Definition goToNextMonth (prev : Z) : Z := setMonth prev (MonthFromDay prev + 1).

End Navigation.

(** * Properties *)

(** ** The entry store behind the handlers *)

Section EntryStore.
Import Js Types Server Sample.

Lemma getAll_stored entries :
  getAllJournalEntriesFromFile (stored entries) = (Ok entries, stored entries).
Proof. reflexivity. Qed.

Lemma range_guard_true (index : Z) (n : nat) :
  index < 0 ∨ index >= Z.of_nat n →
  (index <? 0) || (index >=? Z.of_nat n) = true.
Proof.
  intros [Hneg | Hbig]; apply orb_true_iff.
  - left. by apply Z.ltb_lt.
  - right. apply Z.geb_le. lia.
Qed.

Lemma range_guard_false (index : Z) (n : nat) :
  0 <= index → (Z.to_nat index < n)%nat →
  (index <? 0) || (index >=? Z.of_nat n) = false.
Proof.
  intros Hpos Hlt. apply orb_false_iff. split.
  - apply Z.ltb_ge. lia.
  - rewrite Z.geb_leb. apply Z.leb_gt. lia.
Qed.

(** C1. Update and delete with an index below zero or not below the
    length of the stored collection answer 404 "Entry not found" and
    leave the file as it was, whatever a write would have done. *)
Theorem out_of_range_guard (env : Env) (index_param : string) (index : Z)
    (body : UpdateBody) (entries : list JournalEntry) :
  parseInt index_param = Some index →
  index < 0 ∨ index >= Z.of_nat (length entries) →
  put_journal_entry env index_param body (stored entries)
    = (res_status_json 404 "Entry not found", stored entries)
  ∧ delete_journal_entry env index_param (stored entries)
    = (res_status_json 404 "Entry not found", stored entries).
Proof.
  intros Hparse Hrange. apply range_guard_true in Hrange.
  unfold put_journal_entry, delete_journal_entry, try_catch, bind.
  rewrite Hparse, getAll_stored, Hrange. done.
Qed.

Lemma out_of_range_guard_witness :
  (put_journal_entry quiet_env "2" (mkBody (Str "X") Undefined Undefined) (stored sample_entries)
     = (res_status_json 404 "Entry not found", stored sample_entries)
   ∧ delete_journal_entry quiet_env "2" (stored sample_entries)
     = (res_status_json 404 "Entry not found", stored sample_entries))
  ∧ (put_journal_entry quiet_env "-1" (mkBody (Str "X") Undefined Undefined) (stored sample_entries)
     = (res_status_json 404 "Entry not found", stored sample_entries)
   ∧ delete_journal_entry quiet_env "-1" (stored sample_entries)
     = (res_status_json 404 "Entry not found", stored sample_entries)).
Proof.
  split.
  - apply (out_of_range_guard quiet_env "2" 2); [reflexivity | right; simpl; lia].
  - apply (out_of_range_guard quiet_env "-1" (-1)); [reflexivity | left; lia].
Defined.

(** C2. At an index in range, update answers with the merged entry and
    writes the collection with that entry in place: of [title], [time] and
    [text], a field given as a string, the empty string included, replaces
    the old value and a field that is absent keeps it; [date], [color] and
    [photos] of the entry, and every other entry, are as before. *)
Theorem partial_update (env : Env) (index_param : string) (index : Z)
    (body : UpdateBody) (entries : list JournalEntry) (entry : JournalEntry) :
  parseInt index_param = Some index →
  0 <= index →
  entries !! Z.to_nat index = Some entry →
  write env = Written →
  ∃ updated entries',
    put_journal_entry env index_param body (stored entries)
      = (res_json (EntryJson updated), stored entries')
    ∧ entries' !! Z.to_nat index = Some updated
    ∧ length entries' = length entries
    ∧ (∀ j, j ≠ Z.to_nat index → entries' !! j = entries !! j)
    ∧ merged_field (body_title body) (title entry) (title updated)
    ∧ merged_field (body_time body) (time entry) (time updated)
    ∧ merged_field (body_text body) (text entry) (text updated)
    ∧ date updated = date entry
    ∧ color updated = color entry
    ∧ photos updated = photos entry.
Proof.
  intros Hparse Hpos Hentry Hwrite.
  pose proof (lookup_lt_Some _ _ _ Hentry) as Hlt.
  exists (merge_entry entry body), (<[Z.to_nat index := merge_entry entry body]> entries).
  split.
  { unfold put_journal_entry, try_catch, bind.
    rewrite Hparse, getAll_stored, (range_guard_false _ _ Hpos Hlt), Hentry.
    unfold fs_writeFile. rewrite Hwrite.
    by rewrite list_lookup_insert_eq. }
  split; [by apply list_lookup_insert_eq |].
  split; [apply length_insert |].
  split; [intros j Hj; by apply list_lookup_insert_ne |].
  unfold merge_entry, merged_field; simpl.
  repeat split; try (intros s ->; reflexivity); intros ->; reflexivity.
Qed.

Lemma partial_update_witness :
  ∃ updated entries',
    put_journal_entry quiet_env "1" (mkBody (Str "X") Undefined (Str "")) (stored sample_entries)
      = (res_json (EntryJson updated), stored entries')
    ∧ entries' !! 1%nat = Some updated
    ∧ length entries' = 2%nat
    ∧ entries' !! 0%nat = Some (sample_entry "2025-06-14" "first")
    ∧ title updated = Some "X"
    ∧ time updated = Some "09:30"
    ∧ text updated = Some ""
    ∧ date updated = Some "2025-06-15"
    ∧ color updated = Some "green"
    ∧ photos updated = Some ["/uploads/1-a.png"]%string.
Proof.
  destruct (partial_update quiet_env "1" 1 (mkBody (Str "X") Undefined (Str ""))
              sample_entries (sample_entry "2025-06-15" "second"))
    as (updated & entries' & Hput & Hat & Hlen & Hothers
        & (Ht & _) & (_ & Htime & _) & (Htext & _) & Hd & Hc & Hp);
    [reflexivity | lia | reflexivity | reflexivity |].
  exists updated, entries'.
  split; [exact Hput |]. split; [exact Hat |]. split; [exact Hlen |].
  split; [exact (Hothers 0%nat ltac:(discriminate)) |].
  split; [exact (Ht "X"%string eq_refl) |].
  split; [exact (Htime eq_refl) |].
  split; [exact (Htext ""%string eq_refl) |].
  split; [exact Hd |]. split; [exact Hc | exact Hp].
Defined.

End EntryStore.

(** ** Listing *)

Section Listing.
Import Js Types Server Sample.

(** C5, as the specification words it, fails on a missing file: the
    request is answered with status 500, not with an empty array. *)
Lemma missing_medium_is_an_error :
  get_journal_all Missing
    = (res_status_json 500 "Failed to fetch journal entries", Missing)
  ∧ (get_journal_all Missing).1 ≠ res_json (EntriesJson []).
Proof. split; [reflexivity | discriminate]. Qed.

(** C5, amended. Listing never touches the file.  It answers with the
    stored entries in storage order when the file holds an array, and with
    the empty array when the file holds a falsy JSON value.  It fails, with
    status 500, only when the file is missing or its text is not JSON; a
    missing file and a file of malformed text do make it fail. *)
Theorem list_all (fs : File) :
  (get_journal_all fs).2 = fs
  ∧ (∀ entries, fs = stored entries →
       (get_journal_all fs).1 = res_json (EntriesJson entries))
  ∧ (fs = Present (Json JFalsy) →
       (get_journal_all fs).1 = res_json (EntriesJson []))
  ∧ ((get_journal_all fs).1 = res_status_json 500 "Failed to fetch journal entries"
     → fs = Missing ∨ fs = Present EmptyText ∨ fs = Present Malformed)
  ∧ (fs = Missing ∨ fs = Present Malformed
     → (get_journal_all fs).1 = res_status_json 500 "Failed to fetch journal entries")
  ∧ (status (get_journal_all fs).1 = 200%nat ∨ status (get_journal_all fs).1 = 500%nat).
Proof.
  split; [by destruct fs as [|[| |[|]]] |].
  split; [by intros entries -> |].
  split; [by intros -> |].
  split; [destruct fs as [|[| |[|entries]]]; simpl; intros H; try done; auto |].
  split; [by intros [-> | ->] |].
  destruct fs as [|[| |[|]]]; simpl; auto.
Qed.

Lemma list_all_witness :
  get_journal_all (stored sample_entries)
    = (res_json (EntriesJson sample_entries), stored sample_entries)
  ∧ (get_journal_all Missing).1
    = res_status_json 500 "Failed to fetch journal entries".
Proof.
  destruct (list_all (stored sample_entries)) as (Hsame & Hentries & _).
  destruct (list_all Missing) as (_ & _ & _ & _ & Hfails & _).
  split.
  - rewrite (surjective_pairing (get_journal_all (stored sample_entries))).
    by rewrite Hsame, (Hentries sample_entries eq_refl).
  - apply Hfails. by left.
Defined.

End Listing.

(** ** Creation *)

Section Creation.
Import Js Types Server Sample.

(** *** [Promise.all] over the pending renames *)

Lemma settle_rejects (remaining : nat) :
  ∀ order pending refs r,
    remaining = length pending →
    r ∈ pending → succeeds r = false →
    ∃ e, settle remaining order pending refs = Throw e.
Proof.
  induction remaining as [|n IH]; intros order pending refs r Hlen Hin Hr.
  - destruct pending; [by apply elem_of_nil in Hin | discriminate].
  - simpl.
    destruct (lookup_lt_is_Some_2 pending (hd O order mod length pending)) as [r' Hr'].
    { apply Nat.mod_upper_bound. lia. }
    rewrite Hr'. destruct (succeeds r') eqn:Hs; [| by eexists].
    apply (IH _ _ _ r); [| | done].
    + rewrite length_delete; [lia | by eexists].
    + rewrite (delete_Permutation _ _ _ Hr') in Hin.
      apply elem_of_cons in Hin as [-> | Hin]; [congruence | done].
Qed.

Lemma settle_resolves (remaining : nat) :
  ∀ order pending refs,
    remaining = length pending →
    Forall (λ r, succeeds r = true) pending →
    ∃ pushed, settle remaining order pending refs = Ok (refs ++ pushed)
              ∧ pushed ≡ₚ reference <$> pending.
Proof.
  induction remaining as [|n IH]; intros order pending refs Hlen Hall.
  - destruct pending; [| discriminate]. exists []. by rewrite app_nil_r.
  - simpl.
    destruct (lookup_lt_is_Some_2 pending (hd O order mod length pending)) as [r Hr].
    { apply Nat.mod_upper_bound. lia. }
    rewrite Hr.
    pose proof (delete_Permutation _ _ _ Hr) as Hperm.
    assert (succeeds r = true) as ->.
    { by apply (proj1 (Forall_lookup _ _) Hall _ _ Hr). }
    destruct (IH (tl order) (delete (hd O order mod length pending)%nat pending)
                (refs ++ [reference r])) as (pushed & Heq & Hpushed).
    + rewrite length_delete; [lia | by eexists].
    + rewrite Hperm in Hall. by apply Forall_cons in Hall as [_ ?].
    + exists (reference r :: pushed). split.
      * by rewrite Heq, <- app_assoc.
      * rewrite Hperm, fmap_cons. by constructor.
Qed.

(** When the renames settle in the order they were started, the
    references are pushed in that order. *)
Lemma settle_in_start_order (pending : list Rename) :
  ∀ refs,
    Forall (λ r, succeeds r = true) pending →
    settle (length pending) [] pending refs = Ok (refs ++ (reference <$> pending)).
Proof.
  induction pending as [|r pending IH]; intros refs Hall.
  - simpl. by rewrite app_nil_r.
  - apply Forall_cons in Hall as [Hr Hall].
    cbn [length settle hd tl]. rewrite Nat.Div0.mod_0_l. simpl.
    rewrite Hr, IH by done. by rewrite <- app_assoc.
Qed.

Lemma start_renames_succeed (env : Env) (files : list UploadedFile) :
  (∀ i, (i < length files)%nat → rename_ok env i = true) →
  Forall (λ r, succeeds r = true) (start_renames env files).
Proof.
  intros Hok. apply Forall_lookup. intros i r Hi.
  unfold start_renames in Hi. rewrite list_lookup_imap in Hi.
  destruct (files !! i) as [file|] eqn:Hfile; [| discriminate].
  injection Hi as <-. simpl. apply Hok. by eapply lookup_lt_Some.
Qed.

Lemma start_renames_fail (env : Env) (files : list UploadedFile) (i : nat) :
  (i < length files)%nat → rename_ok env i = false →
  ∃ r, r ∈ start_renames env files ∧ succeeds r = false.
Proof.
  intros Hi Hfail.
  destruct (lookup_lt_is_Some_2 files i Hi) as [file Hfile].
  exists {| reference := "/uploads/" +:+ uniqueFileName (Date_now env i) file;
            succeeds := rename_ok env i |}.
  split; [| exact Hfail].
  apply (list_elem_of_lookup_2 _ i). unfold start_renames.
  by rewrite list_lookup_imap, Hfile.
Qed.

Lemma Promise_all_resolves (env : Env) (files : list UploadedFile) :
  (∀ i, (i < length files)%nat → rename_ok env i = true) →
  ∃ refs, Promise_all (settles env) (start_renames env files) = Ok refs
          ∧ refs ≡ₚ references_in_upload_order env files.
Proof.
  intros Hok. unfold Promise_all.
  destruct (settle_resolves _ (settles env) (start_renames env files) [] eq_refl
              (start_renames_succeed _ _ Hok)) as (pushed & Heq & Hperm).
  by exists pushed.
Qed.

Lemma Promise_all_rejects (env : Env) (files : list UploadedFile) (i : nat) :
  (i < length files)%nat → rename_ok env i = false →
  ∃ e, Promise_all (settles env) (start_renames env files) = Throw e.
Proof.
  intros Hi Hfail.
  destruct (start_renames_fail env files i Hi Hfail) as (r & Hin & Hr).
  by apply (settle_rejects _ _ _ _ r).
Qed.

(** *** The two ways a creation request ends *)

Lemma create_appends (env : Env) (req : CreateRequest)
    (entries : list JournalEntry) (refs : list string) :
  Promise_all (settles env) (start_renames env (req_files req)) = Ok refs →
  write env = Written →
  post_journal env req (stored entries)
    = (res_json SuccessJson, stored (entries ++ [entry_of req refs])).
Proof.
  intros Hall Hwrite.
  unfold post_journal, createJournalEntryInFile, try_catch, bind, lift.
  rewrite getAll_stored, Hall. unfold fs_writeFile. by rewrite Hwrite.
Qed.

Lemma create_rejected (env : Env) (req : CreateRequest) (fs : File) (e : Error) :
  Promise_all (settles env) (start_renames env (req_files req)) = Throw e →
  post_journal env req fs
    = (res_status_json 500 "Failed to create journal entry", fs).
Proof.
  intros Hall.
  unfold post_journal, createJournalEntryInFile, try_catch, bind, lift.
  destruct (getAllJournalEntriesFromFile fs) as [[entries|e'] fs'] eqn:Hget.
  - rewrite Hall.
    destruct fs as [|[| |[|]]]; simpl in Hget; by injection Hget as _ <-.
  - destruct fs as [|[| |[|]]]; simpl in Hget; by injection Hget as _ <-.
Qed.

(** C4. When the rename of any uploaded file fails, the request is
    answered with status 500 and the file is as before; so a success
    answer, or a file that differs from before, means every rename of
    the request has succeeded. *)
Theorem append_after_attachments (env : Env) (req : CreateRequest) (fs : File) :
  (∀ i, (i < length (req_files req))%nat → rename_ok env i = false →
     post_journal env req fs
       = (res_status_json 500 "Failed to create journal entry", fs))
  ∧ (∀ res fs', post_journal env req fs = (res, fs') →
       status res = 200%nat ∨ fs' ≠ fs →
       ∀ i, (i < length (req_files req))%nat → rename_ok env i = true).
Proof.
  assert (∀ i, (i < length (req_files req))%nat → rename_ok env i = false →
            post_journal env req fs
              = (res_status_json 500 "Failed to create journal entry", fs)) as Hfail.
  { intros i Hi Hno.
    destruct (Promise_all_rejects env _ i Hi Hno) as [e He].
    by apply (create_rejected _ _ _ e). }
  split; [exact Hfail |].
  intros res fs' Hpost Hdone i Hi.
  destruct (rename_ok env i) eqn:Hok; [done |].
  rewrite (Hfail i Hi Hok) in Hpost. injection Hpost as <- <-.
  destruct Hdone as [Hstatus | Hchanged]; [discriminate | done].
Qed.

Lemma append_after_attachments_witness :
  post_journal failing_env (request (Some "Dinner") (Some "red") two_photos)
      (stored sample_entries)
    = (res_status_json 500 "Failed to create journal entry", stored sample_entries)
  ∧ (∀ i, (i < 2)%nat → rename_ok quiet_env i = true).
Proof.
  split.
  - apply (proj1 (append_after_attachments failing_env
                    (request (Some "Dinner") (Some "red") two_photos)
                    (stored sample_entries)) 1%nat); [simpl; lia | reflexivity].
  - apply (proj2 (append_after_attachments quiet_env
                    (request (Some "Dinner") (Some "red") two_photos)
                    (stored sample_entries))
             (res_json SuccessJson)
             (stored (sample_entries
                        ++ [entry_of (request (Some "Dinner") (Some "red") two_photos)
                              ["/uploads/1750003200000-a.png";
                               "/uploads/1750003200000-b.png"]%string])));
      [reflexivity | left; reflexivity].
Defined.

(** C3 fails where the renames settle out of order: two files are
    uploaded, [a.png] before [b.png], every rename succeeds, the rename
    of [b.png] settles first, and the stored entry lists the reference
    of [b.png] before the reference of [a.png]. *)
Theorem photos_in_settle_order :
  references_in_upload_order second_first_env two_photos
    = ["/uploads/1750003200000-a.png"; "/uploads/1750003200000-b.png"]%string
  ∧ post_journal second_first_env (request (Some "Dinner") (Some "red") two_photos)
      (stored [])
    = (res_json SuccessJson,
       stored [ {| date := Some "2025-06-15"; title := Some "Dinner";
                   time := Some "18:00"; text := Some "dinner";
                   color := Some "red";
                   photos := Some ["/uploads/1750003200000-b.png";
                                   "/uploads/1750003200000-a.png"]%string |} ]).
Proof. split; reflexivity. Qed.

(** What holds for every order: the stored references are those of the
    uploaded files, each once; and they are in upload order when the
    renames settle in the order they were started. *)
Lemma photos_up_to_order (env : Env) (req : CreateRequest) (entries : list JournalEntry) :
  (∀ i, (i < length (req_files req))%nat → rename_ok env i = true) →
  write env = Written →
  ∃ refs, post_journal env req (stored entries)
            = (res_json SuccessJson, stored (entries ++ [entry_of req refs]))
          ∧ refs ≡ₚ references_in_upload_order env (req_files req).
Proof.
  intros Hok Hwrite.
  destruct (Promise_all_resolves env _ Hok) as (refs & Hall & Hperm).
  exists refs. split; [by apply create_appends | done].
Qed.

Lemma photos_in_upload_order_when_settled_in_order
    (env : Env) (req : CreateRequest) (entries : list JournalEntry) :
  (∀ i, (i < length (req_files req))%nat → rename_ok env i = true) →
  settles env = [] →
  write env = Written →
  post_journal env req (stored entries)
    = (res_json SuccessJson,
       stored (entries ++ [entry_of req (references_in_upload_order env (req_files req))])).
Proof.
  intros Hok Horder Hwrite. apply create_appends; [| done].
  unfold Promise_all. rewrite Horder.
  by rewrite settle_in_start_order by by apply start_renames_succeed.
Qed.

Lemma post_journal_status (env : Env) (req : CreateRequest) (fs : File) :
  status (post_journal env req fs).1 = 200%nat
  ∨ status (post_journal env req fs).1 = 500%nat.
Proof.
  unfold post_journal, createJournalEntryInFile, try_catch, bind, lift, fs_writeFile.
  destruct (getAllJournalEntriesFromFile fs) as [[entries|e] fs']; [| by right].
  destruct (Promise_all _ _); [| by right].
  destruct (write env); [by left | by right].
Qed.

(** C6, as the specification words it, fails for a colour outside the
    enumeration: it is stored as it came. *)
Lemma unlisted_color_is_stored :
  ("magenta"%string ∉ NOTE_COLOR_OPTIONS)
  ∧ (∃ entry,
       post_journal quiet_env (request (Some "Dinner") (Some "magenta") []) (stored [])
         = (res_json SuccessJson, stored [entry])
       ∧ color entry = Some "magenta"%string
       ∧ color entry ≠ Some "blue"%string).
Proof.
  split.
  - unfold NOTE_COLOR_OPTIONS. rewrite !elem_of_cons, elem_of_nil.
    intros H. repeat destruct H as [H|H]; done.
  - eexists. split; [reflexivity |]. by split.
Qed.

(** C6, amended. The entry a creation request stores has the colour of
    the request whenever that is a non-empty string, inside the
    enumeration or not, and ["blue"] when the request has no colour or an
    empty one. *)
Theorem stored_color (env : Env) (req : CreateRequest) (entries : list JournalEntry) :
  (∀ i, (i < length (req_files req))%nat → rename_ok env i = true) →
  write env = Written →
  ∃ entry,
    post_journal env req (stored entries)
      = (res_json SuccessJson, stored (entries ++ [entry]))
    ∧ (req_color req = None → color entry = Some "blue"%string)
    ∧ (req_color req = Some ""%string → color entry = Some "blue"%string)
    ∧ (∀ c, req_color req = Some c → c ≠ ""%string → color entry = Some c).
Proof.
  intros Hok Hwrite.
  destruct (photos_up_to_order env req entries Hok Hwrite) as (refs & Hpost & _).
  exists (entry_of req refs). split; [exact Hpost |].
  unfold entry_of, newEntry; simpl.
  split; [by intros -> |]. split; [by intros -> |].
  intros c -> Hc. simpl.
  destruct (String.eqb_spec c ""); [done | reflexivity].
Qed.

Lemma stored_color_witness :
  ∃ entry,
    post_journal quiet_env (request (Some "Dinner") None two_photos) (stored sample_entries)
      = (res_json SuccessJson, stored (sample_entries ++ [entry]))
    ∧ color entry = Some "blue"%string.
Proof.
  destruct (stored_color quiet_env (request (Some "Dinner") None two_photos) sample_entries)
    as (entry & Hpost & Habsent & _); [reflexivity | reflexivity |].
  exists entry. split; [exact Hpost | exact (Habsent eq_refl)].
Defined.

(** C7, as the specification words it, fails: a request without a title
    is answered with success and its entry is appended. *)
Lemma missing_title_is_accepted :
  post_journal quiet_env (request None (Some "red") []) (stored sample_entries)
    = (res_json SuccessJson,
       stored (sample_entries
                 ++ [ {| date := Some "2025-06-15"; title := None;
                         time := Some "18:00"; text := Some "dinner";
                         color := Some "red"; photos := Some [] |} ]))
  ∧ status (post_journal quiet_env (request None (Some "red") []) (stored sample_entries)).1
    ≠ 400%nat.
Proof. split; [reflexivity | discriminate]. Qed.

(** C7, amended. A creation request without a title is never answered
    with status 400; when the collection can be read, every attachment is
    stored and the write succeeds, it is answered with success and an
    entry without a title is appended. *)
Theorem missing_title_not_rejected (env : Env) (req : CreateRequest) (fs : File) :
  req_title req = None →
  status (post_journal env req fs).1 ≠ 400%nat
  ∧ (∀ entries,
       fs = stored entries →
       (∀ i, (i < length (req_files req))%nat → rename_ok env i = true) →
       write env = Written →
       ∃ entry,
         post_journal env req fs = (res_json SuccessJson, stored (entries ++ [entry]))
         ∧ title entry = None).
Proof.
  intros Htitle. split.
  - destruct (post_journal_status env req fs) as [-> | ->]; discriminate.
  - intros entries -> Hok Hwrite.
    destruct (photos_up_to_order env req entries Hok Hwrite) as (refs & Hpost & _).
    exists (entry_of req refs). by split.
Qed.

Lemma missing_title_not_rejected_witness :
  status (post_journal quiet_env (request None (Some "red") two_photos)
            (stored sample_entries)).1 ≠ 400%nat
  ∧ ∃ entry,
      post_journal quiet_env (request None (Some "red") two_photos) (stored sample_entries)
        = (res_json SuccessJson, stored (sample_entries ++ [entry]))
      ∧ title entry = None.
Proof.
  destruct (missing_title_not_rejected quiet_env (request None (Some "red") two_photos)
              (stored sample_entries) eq_refl) as [Hstatus Happend].
  split; [exact Hstatus |].
  apply (Happend sample_entries); reflexivity.
Defined.

End Creation.

(** ** Memories and reminders *)

Section Partition.
Import Js Types App Sample.

(** C8 fails west of Greenwich. In a zone four hours behind UTC, with
    today being 15 June 2025, the entry dated 15 June is listed among the
    memories and not among the reminders: [new Date("2025-06-15")] is
    midnight UTC, which is 20:00 of 14 June there, and [setHours] takes it
    to the start of 14 June. *)
Theorem today_is_a_memory_west_of_utc :
  let today := App.today edt noon_15_june_edt in
  let entries := [ dated (Some "2025-06-14"); dated (Some "2025-06-15");
                   dated (Some "2025-06-16") ]%string in
  today = MakeDay 2025 6 15 * msPerDay - edt * 60000
  ∧ memories edt today entries
    = [ dated (Some "2025-06-14"); dated (Some "2025-06-15") ]%string
  ∧ reminders edt today entries = [ dated (Some "2025-06-16") ]%string.
Proof. repeat split; vm_compute; reflexivity. Qed.

(** A date-only string that is parsed at all is parsed as midnight UTC of
    some day. *)
Lemma Date_parse_midnight_utc (s : string) (t : Z) :
  Date_parse s = Some t → ∃ day, t = day * msPerDay.
Proof.
  unfold Date_parse. intros H.
  repeat (destruct s as [|? s]; [discriminate |]).
  destruct s; [| discriminate].
  destruct (_ && _) in H; [| discriminate].
  repeat match type of H with
         | context [two_digits ?a ?b] =>
             destruct (two_digits a b); simpl in H; [| discriminate]
         end.
  destruct (_ && _) in H; [| discriminate].
  injection H as <-. by eexists.
Qed.

Lemma setHours0_east (offset day : Z) :
  0 <= offset < 1440 →
  setHours0 offset (day * msPerDay) = day * msPerDay - offset * 60000.
Proof.
  intros Hoff. unfold setHours0, msPerDay.
  rewrite Z.div_add_l by lia. rewrite Z.div_small by lia. lia.
Qed.

Lemma setHours0_west (offset day : Z) :
  -1440 < offset < 0 →
  setHours0 offset (day * msPerDay) = (day - 1) * msPerDay - offset * 60000.
Proof.
  intros Hoff. unfold setHours0, msPerDay.
  rewrite Z.div_add_l by lia.
  replace (offset * 60000 / 86400000) with (-1); [lia |].
  apply Z.div_unique with (r := offset * 60000 + 86400000); lia.
Qed.

(** At or east of Greenwich the partition is the one the specification
    describes: with [local_day] the day number of today, an entry dated
    [day] is a memory exactly when [day < local_day] and a reminder
    otherwise. *)
Lemma partition_east_of_utc (offset now day : Z) (e : JournalEntry) :
  0 <= offset < 1440 →
  new_Date (date e) = Some (day * msPerDay) →
  let local_day := (now + offset * 60000) / msPerDay in
  (is_memory offset (today offset now) e = true ↔ day < local_day)
  ∧ (is_reminder offset (today offset now) e = true ↔ local_day <= day).
Proof.
  intros Hoff Hdate local_day. unfold is_memory, is_reminder.
  rewrite Hdate, setHours0_east by done.
  unfold today, setHours0. fold local_day. unfold msPerDay.
  rewrite Z.ltb_lt, Z.geb_le. lia.
Qed.

(** West of Greenwich every entry is classified as if it were dated one
    day earlier. *)
Lemma partition_west_of_utc (offset now day : Z) (e : JournalEntry) :
  -1440 < offset < 0 →
  new_Date (date e) = Some (day * msPerDay) →
  let local_day := (now + offset * 60000) / msPerDay in
  (is_memory offset (today offset now) e = true ↔ day - 1 < local_day)
  ∧ (is_reminder offset (today offset now) e = true ↔ local_day <= day - 1).
Proof.
  intros Hoff Hdate local_day. unfold is_memory, is_reminder.
  rewrite Hdate, setHours0_west by done.
  unfold today, setHours0. fold local_day. unfold msPerDay.
  rewrite Z.ltb_lt, Z.geb_le. lia.
Qed.

(** An entry whose date is missing or is no date is in neither list. *)
Lemma undated_in_neither_list (offset today : Z) (e : JournalEntry) :
  new_Date (date e) = None →
  is_memory offset today e = false ∧ is_reminder offset today e = false.
Proof. intros H. unfold is_memory, is_reminder. by rewrite H. Qed.

End Partition.

(** ** Objects used as maps *)

Section Objects.
Import Js.
Context {V : Type}.
Implicit Types (o : Obj V) (k : string) (v : V).

Lemma own_app o o' k :
  own (o ++ o') k = match own o k with Some v => Some v | None => own o' k end.
Proof.
  induction o as [|[k0 v0] o IH]; simpl; [done |].
  by destruct (String.eqb k k0).
Qed.

Lemma own_update_own o k k' (f : V → V) :
  own (update_own o k f) k' = if String.eqb k' k then f <$> own o k' else own o k'.
Proof.
  induction o as [|[k0 v0] o IH]; simpl; [by destruct (String.eqb k' k) |].
  destruct (String.eqb_spec k k0) as [-> | Hk]; simpl.
  - by destruct (String.eqb k' k0).
  - rewrite IH.
    destruct (String.eqb_spec k' k0) as [-> | Hk']; [| done].
    by destruct (String.eqb_spec k0 k).
Qed.





End Objects.

(** ** The forecast *)

Section FirstSeen.
Import Weather.





End FirstSeen.

Section Forecast.
Import Js Weather.
Context {Temp : Type} (lt : Temp → Temp → bool).

(** [<] on numbers: asymmetric, and its complement is transitive. *)
Hypothesis lt_asym : ∀ a b, lt a b = true → lt b a = false.
Hypothesis le_trans : ∀ a b c, le lt a b → le lt b c → le lt a c.

Implicit Types (item : ForecastItem Temp) (items : list (ForecastItem Temp)).
Implicit Types (s : WeatherSummary Temp) (dailyMap : Obj (WeatherSummary Temp)).

Lemma temp_le_refl a : le lt a a.
Proof using lt_asym.
  unfold le. destruct (lt a a) eqn:H; [| done]. by rewrite (lt_asym _ _ H) in H.
Qed.







Lemma is_min_singleton t : is_min lt t [t].
Proof using lt_asym.
  split; [by apply list_elem_of_singleton | repeat constructor; apply temp_le_refl].
Qed.

Lemma is_max_singleton t : is_max lt t [t].
Proof using lt_asym.
  split; [by apply list_elem_of_singleton | repeat constructor; apply temp_le_refl].
Qed.






(** Every date-only string that parses is an ordinary property name. *)
Lemma iso_date_plain_key (d : string) (t : Z) :
  Date_parse d = Some t → plain_key d = true.
Proof.
  intros Hd. unfold plain_key. apply andb_true_iff. split; apply negb_true_iff.
  - unfold Date_parse in Hd.
    repeat (destruct d as [|? d]; [discriminate |]).
    destruct d; [| discriminate].
    destruct (_ && _) eqn:Hyphens in Hd; [| discriminate]. clear Hd.
    apply andb_true_iff in Hyphens as [Hh _]. apply Ascii.eqb_eq in Hh. subst.
    unfold is_array_index. destruct (Ascii.eqb _ "0"); [reflexivity |].
    apply andb_false_iff. left. cbn [all_digits].
    change (is_digit "-") with false. by rewrite !andb_false_r.
  - destruct (inherited d) eqn:Hinh; [| done].
    apply existsb_exists in Hinh as (name & Hname & Heq).
    apply String.eqb_eq in Heq. subst name.
    simpl in Hname. repeat destruct Hname as [<- | Hname]; try discriminate. done.
Qed.


End Forecast.

Section ForecastExample.
Import Js Weather Sample.


(** The example of the specification: the samples of 15 June have
    temperatures 18, 22 and 15. *)
Example forecast_of_samples :
  fetchFiveDayForecast Z.ltb (Some samples)
  = [ {| date := "2025-06-15"; tempMin := 15; tempMax := 22;
         weather := "Clouds"; icon := "04d" |};
      {| date := "2025-06-16"; tempMin := 12; tempMax := 12;
         weather := "Clear"; icon := "01n" |} ].
Proof. reflexivity. Qed.

(** Where the date portions are not dates the order of first occurrence
    can be lost: integer-like names come first, in numeric order. *)
Example integer_like_names_come_first :
  date <$> fetchFiveDayForecast Z.ltb
             (Some [ mkItem "2025-06-15 09:00:00" 18 "Clouds" "04d";
                     mkItem "7 12:00:00" 22 "Rain" "10d";
                     mkItem "3 15:00:00" 15 "Clear" "01d" ])
  = [ "3"; "7"; "2025-06-15" ]%string.
Proof. reflexivity. Qed.

End ForecastExample.

(** ** The two colour mappings *)

Section Colours.
Import Js Types.

(** C10, as worded, fails for a colour outside the enumeration: the
    [switch] of the calendar falls back to the blue classes, the shared
    [noteBg] throws. *)
Lemma shared_noteBg_throws_on_unlisted_color :
  ("magenta"%string ∉ NOTE_COLOR_OPTIONS)
  ∧ MonthlyCalendar.noteBg (Some "magenta"%string)
    = "bg-blue-100 border-blue-200 text-blue-900"%string
  ∧ NoteColors.noteBg (Some "magenta"%string) = NoteColors.ThrowsTypeError
  ∧ NoteColors.noteBg (Some "magenta"%string)
    ≠ NoteColors.Returns (MonthlyCalendar.noteBg (Some "magenta"%string)).
Proof.
  split; [| by repeat split].
  unfold NOTE_COLOR_OPTIONS. rewrite !elem_of_cons, elem_of_nil.
  intros H. repeat destruct H as [H|H]; done.
Qed.

Lemma own_NOTE_COLORS (c : string) :
  c ∉ NOTE_COLOR_OPTIONS → own NoteColors.NOTE_COLORS c = None.
Proof.
  unfold NOTE_COLOR_OPTIONS. rewrite !not_elem_of_cons. intros H.
  destruct_and!. simpl.
  repeat match goal with
         | |- context [String.eqb c ?x] => destruct (String.eqb_spec c x); [done |]
         end.
  done.
Qed.

Lemma MonthlyCalendar_noteBg_default (c : string) :
  c ∉ NOTE_COLOR_OPTIONS →
  MonthlyCalendar.noteBg (Some c) = "bg-blue-100 border-blue-200 text-blue-900"%string.
Proof.
  unfold NOTE_COLOR_OPTIONS. rewrite !not_elem_of_cons. intros H.
  destruct_and!. unfold MonthlyCalendar.noteBg.
  repeat match goal with
         | |- context [String.eqb c ?x] => destruct (String.eqb_spec c x); [done |]
         end.
  done.
Qed.

(** C10, amended. On each of the eight colours of the enumeration the
    shared [noteBg] returns the string the [switch] of the calendar
    returns, and both give the blue classes when the colour is absent.
    For a string outside the enumeration only the [switch] gives the blue
    classes; the shared [noteBg] returns no string: it throws, or returns
    [undefined] for a name inherited from [Object.prototype]. *)
Theorem noteBg_agree :
  Forall (λ c, NoteColors.noteBg (Some c) = NoteColors.Returns (MonthlyCalendar.noteBg (Some c)))
         NOTE_COLOR_OPTIONS
  ∧ MonthlyCalendar.noteBg None = "bg-blue-100 border-blue-200 text-blue-900"%string
  ∧ NoteColors.noteBg None
    = NoteColors.Returns "bg-blue-100 border-blue-200 text-blue-900"%string
  ∧ (∀ c, c ∉ NOTE_COLOR_OPTIONS →
       MonthlyCalendar.noteBg (Some c) = "bg-blue-100 border-blue-200 text-blue-900"%string
       ∧ ∀ classes, NoteColors.noteBg (Some c) ≠ NoteColors.Returns classes).
Proof.
  split; [by repeat constructor |].
  split; [done |]. split; [done |].
  intros c Hc. split; [by apply MonthlyCalendar_noteBg_default |].
  intros classes. unfold NoteColors.noteBg, NoteColors.getNoteColorConfig.
  change (default NoteColors.DEFAULT_COLOR (Some c)) with c.
  rewrite (own_NOTE_COLORS c Hc). by destruct (inherited c).
Qed.

Lemma noteBg_agree_witness :
  NoteColors.noteBg (Some "pink"%string)
    = NoteColors.Returns (MonthlyCalendar.noteBg (Some "pink"%string))
  ∧ MonthlyCalendar.noteBg (Some "teal"%string)
    = "bg-blue-100 border-blue-200 text-blue-900"%string
  ∧ NoteColors.noteBg (Some "teal"%string)
    ≠ NoteColors.Returns "bg-blue-100 border-blue-200 text-blue-900"%string.
Proof.
  destruct noteBg_agree as (Hlisted & _ & _ & Hunlisted).
  split.
  - apply (proj1 (Forall_forall _ _) Hlisted "pink"%string).
    unfold NOTE_COLOR_OPTIONS. rewrite !elem_of_cons. tauto.
  - assert ("teal"%string ∉ NOTE_COLOR_OPTIONS) as Hteal.
    { unfold NOTE_COLOR_OPTIONS. rewrite !elem_of_cons, elem_of_nil.
      intros H. repeat destruct H as [H|H]; done. }
    destruct (Hunlisted "teal"%string Hteal) as [Hlocal Hshared].
    split; [exact Hlocal | apply Hshared].
Defined.

End Colours.

(** * Further properties of the code *)

(** ** Deleting, finding by date, and sequences of requests *)

Section MoreEntryStore.
Import Js Types Server Routes Sample.

(** X1. Deleting at an index in range answers with success and writes the
    collection without that entry: it is one shorter, the entries before
    the index keep their positions and every later entry moves down by
    one. *)
Theorem delete_shifts_down (env : Env) (index_param : string) (index : Z)
    (entries : list JournalEntry) :
  parseInt index_param = Some index →
  0 <= index →
  (Z.to_nat index < length entries)%nat →
  write env = Written →
  ∃ entries',
    delete_journal_entry env index_param (stored entries)
      = (res_json SuccessJson, stored entries')
    ∧ length entries' = (length entries - 1)%nat
    ∧ (∀ j, (j < Z.to_nat index)%nat → entries' !! j = entries !! j)
    ∧ (∀ j, (Z.to_nat index ≤ j)%nat → entries' !! j = entries !! S j).
Proof.
  intros Hparse Hpos Hlt Hwrite.
  exists (delete (Z.to_nat index) entries). split.
  { unfold delete_journal_entry, try_catch, bind.
    rewrite Hparse, getAll_stored, (range_guard_false _ _ Hpos Hlt).
    unfold fs_writeFile. by rewrite Hwrite. }
  split; [by apply length_delete, lookup_lt_is_Some_2 |].
  split; [intros j Hj; by apply list_lookup_delete_lt |].
  intros j Hj. by apply list_lookup_delete_ge.
Qed.

Lemma delete_shifts_down_witness :
  ∃ entries',
    delete_journal_entry quiet_env "0" (stored sample_entries)
      = (res_json SuccessJson, stored entries')
    ∧ length entries' = 1%nat
    ∧ entries' !! 0%nat = Some (sample_entry "2025-06-15" "second").
Proof.
  destruct (delete_shifts_down quiet_env "0" 0 sample_entries)
    as (entries' & Hdel & Hlen & _ & Hafter);
    [reflexivity | lia | simpl; lia | reflexivity |].
  exists entries'. split; [exact Hdel |]. split; [exact Hlen |].
  exact (Hafter 0%nat (Nat.le_refl 0)).
Defined.

(** X2. Looking an entry up by date never changes the file.  Over a
    stored collection it answers 200 with the first entry, in storage
    order, whose date is the requested string, and with [null] exactly
    when no entry has that date; a file that cannot be read or parsed is
    answered with 500. *)
Theorem find_by_date (date : string) (fs : File) :
  (get_journal_by_date date fs).2 = fs
  ∧ (∀ entries, fs = stored entries →
       ∃ found,
         (get_journal_by_date date fs).1 = mkDateResponse 200 (JournalEntryJson found)
         ∧ match found with
           | Some entry =>
               ∃ i, entries !! i = Some entry
                    ∧ Types.date entry = Some date
                    ∧ ∀ j earlier, (j < i)%nat → entries !! j = Some earlier →
                                    Types.date earlier ≠ Some date
           | None => ∀ entry, entry ∈ entries → Types.date entry ≠ Some date
           end)
  ∧ (fs = Missing ∨ fs = Present EmptyText ∨ fs = Present Malformed →
       (get_journal_by_date date fs).1
         = mkDateResponse 500 (DateErrorJson "Failed to fetch journal entry")).
Proof.
  split; [by destruct fs as [|[| |[|]]] |].
  split; [| by intros [-> | [-> | ->]]].
  intros entries ->.
  unfold get_journal_by_date, getJournalEntryByDateFromFile, bind, lift, ret, stored.
  simpl.
  destruct (list_find (λ entry, Types.date entry = Some date) entries)
    as [[i entry]|] eqn:Hfind; simpl.
  - exists (Some entry). split; [done |].
    apply list_find_Some in Hfind as (Hi & Hdate & Hfirst).
    exists i. split; [done |]. split; [done |].
    intros j earlier Hj Hearlier. by apply (Hfirst j).
  - exists None. split; [done |].
    apply list_find_None in Hfind.
    intros entry Hin. by apply (proj1 (Forall_forall _ _) Hfind).
Qed.

Lemma find_by_date_witness :
  (get_journal_by_date "2025-06-15" (stored sample_entries)).1
    = mkDateResponse 200 (JournalEntryJson (Some (sample_entry "2025-06-15" "second")))
  ∧ (get_journal_by_date "2025-06-15" Missing).1
    = mkDateResponse 500 (DateErrorJson "Failed to fetch journal entry").
Proof.
  destruct (find_by_date "2025-06-15" Missing) as (_ & _ & Hfail).
  split; [reflexivity | apply Hfail; by left].
Defined.



(** X4. Creating and then listing: after a creation request has been
    answered with success, listing returns the entries that were there, in
    their order, followed by one new entry that carries the date, title,
    time and text of the request and one reference per uploaded file. *)
Theorem create_then_list (env : Env) (req : CreateRequest) (entries : list JournalEntry) :
  (∀ i, (i < length (req_files req))%nat → rename_ok env i = true) →
  write env = Written →
  ∃ fs' created refs,
    post_journal env req (stored entries) = (res_json SuccessJson, fs')
    ∧ get_journal_all fs' = (res_json (EntriesJson (entries ++ [created])), fs')
    ∧ Types.date created = req_date req
    ∧ title created = req_title req
    ∧ time created = req_time req
    ∧ text created = req_text req
    ∧ photos created = Some refs
    ∧ refs ≡ₚ references_in_upload_order env (req_files req).
Proof.
  intros Hok Hwrite.
  destruct (photos_up_to_order env req entries Hok Hwrite) as (refs & Hpost & Hperm).
  exists (stored (entries ++ [entry_of req refs])), (entry_of req refs), refs.
  by repeat split.
Qed.

Lemma create_then_list_witness :
  ∃ fs' created,
    post_journal quiet_env (request (Some "Dinner") (Some "red") two_photos)
        (stored sample_entries)
      = (res_json SuccessJson, fs')
    ∧ get_journal_all fs' = (res_json (EntriesJson (sample_entries ++ [created])), fs')
    ∧ title created = Some "Dinner"%string.
Proof.
  destruct (create_then_list quiet_env (request (Some "Dinner") (Some "red") two_photos)
              sample_entries)
    as (fs' & created & refs & Hpost & Hlist & _ & Htitle & _);
    [reflexivity | reflexivity |].
  exists fs', created. split; [exact Hpost |]. split; [exact Hlist | exact Htitle].
Defined.

(** X5. Updating twice with the same body is the same as updating once:
    the second request gets the same answer and leaves the file as the
    first one wrote it. *)
Theorem update_idempotent (env : Env) (index_param : string) (index : Z)
    (body : UpdateBody) (entries : list JournalEntry) :
  parseInt index_param = Some index →
  0 <= index →
  (Z.to_nat index < length entries)%nat →
  write env = Written →
  let once := put_journal_entry env index_param body (stored entries) in
  put_journal_entry env index_param body once.2 = once.
Proof.
  intros Hparse Hpos Hlt Hwrite once.
  destruct (lookup_lt_is_Some_2 entries (Z.to_nat index) Hlt) as [entry Hentry].
  assert (once = (res_json (EntryJson (merge_entry entry body)),
                  stored (<[Z.to_nat index := merge_entry entry body]> entries))) as ->.
  { unfold once, put_journal_entry, try_catch, bind.
    rewrite Hparse, getAll_stored, (range_guard_false _ _ Hpos Hlt), Hentry.
    unfold fs_writeFile. rewrite Hwrite. by rewrite list_lookup_insert_eq. }
  simpl. unfold put_journal_entry, try_catch, bind.
  rewrite Hparse, getAll_stored, length_insert, (range_guard_false _ _ Hpos Hlt).
  rewrite list_lookup_insert_eq by done.
  unfold fs_writeFile. rewrite Hwrite, list_insert_insert_eq.
  rewrite list_lookup_insert_eq by done.
  assert (merge_entry (merge_entry entry body) body = merge_entry entry body) as ->; [| done].
  unfold merge_entry. simpl. f_equal;
    [destruct (body_title body) | destruct (body_time body) | destruct (body_text body)];
    done.
Qed.

Lemma update_idempotent_witness :
  let once := put_journal_entry quiet_env "1" (mkBody (Str "X") Undefined Null)
                (stored sample_entries) in
  put_journal_entry quiet_env "1" (mkBody (Str "X") Undefined Null) once.2 = once.
Proof.
  apply (update_idempotent quiet_env "1" 1); [reflexivity | lia | simpl; lia | reflexivity].
Defined.

(** X6. Positions are the only identity.  After the entry at [i] has been
    deleted, an update addressed to a position [j] at or after [i] changes
    the entry that was at [j + 1] before the deletion. *)
Theorem update_after_delete_hits_next (env : Env) (deleted updated_at : string)
    (i j : Z) (body : UpdateBody) (entries : list JournalEntry) (next : JournalEntry) :
  parseInt deleted = Some i →
  parseInt updated_at = Some j →
  0 <= i <= j →
  entries !! S (Z.to_nat j) = Some next →
  write env = Written →
  ∃ fs1 fs2,
    delete_journal_entry env deleted (stored entries) = (res_json SuccessJson, fs1)
    ∧ put_journal_entry env updated_at body fs1
      = (res_json (EntryJson (merge_entry next body)), fs2).
Proof.
  intros Hi Hj Hij Hnext Hwrite.
  pose proof (lookup_lt_Some _ _ _ Hnext) as Hlen.
  assert (Z.to_nat i ≤ Z.to_nat j)%nat as Hle by lia.
  exists (stored (delete (Z.to_nat i) entries)),
         (stored (<[Z.to_nat j := merge_entry next body]> (delete (Z.to_nat i) entries))).
  split.
  - unfold delete_journal_entry, try_catch, bind.
    rewrite Hi, getAll_stored, range_guard_false by lia.
    unfold fs_writeFile. by rewrite Hwrite.
  - assert (delete (Z.to_nat i) entries !! Z.to_nat j = Some next) as Hat
      by (by rewrite list_lookup_delete_ge).
    pose proof (lookup_lt_Some _ _ _ Hat) as Hlt.
    unfold put_journal_entry, try_catch, bind.
    rewrite Hj, getAll_stored, range_guard_false, Hat by lia.
    unfold fs_writeFile. rewrite Hwrite. by rewrite list_lookup_insert_eq.
Qed.

Lemma update_after_delete_hits_next_witness :
  ∃ fs1 fs2,
    delete_journal_entry quiet_env "0" (stored sample_entries) = (res_json SuccessJson, fs1)
    ∧ put_journal_entry quiet_env "0" (mkBody (Str "X") Undefined Undefined) fs1
      = (res_json (EntryJson (merge_entry (sample_entry "2025-06-15" "second")
                                (mkBody (Str "X") Undefined Undefined))), fs2).
Proof.
  apply (update_after_delete_hits_next quiet_env "0" "0" 0 0);
    [reflexivity | reflexivity | lia | reflexivity | reflexivity].
Defined.

End MoreEntryStore.

(** ** The week of the calendar *)

Section Week.
Import Js Types Server Routes Sample.


Lemma elem_of_List_filter {A} (f : A → bool) (l : list A) (x : A) :
  x ∈ List.filter f l ↔ x ∈ l ∧ f x = true.
Proof. by rewrite !list_elem_of_In, filter_In. Qed.

(** The local day number of [now], and the day number of the Sunday on or
    before it. *)
Lemma week_bounds (offset now : Z) :
  let local_day := (now + offset * 60000) / msPerDay in
  let sunday := local_day - (local_day + 4) mod 7 in
  startOfWeek offset now = sunday * msPerDay - offset * 60000
  ∧ endOfWeek offset now = (sunday + 7) * msPerDay - offset * 60000
  ∧ (sunday + 4) mod 7 = 0
  ∧ sunday <= local_day < sunday + 7.
Proof.
  intros local_day sunday.
  unfold endOfWeek, startOfWeek, setDate_by, getDay, setHours0.
  fold local_day. unfold sunday, msPerDay.
  pose proof (Z.mod_pos_bound (local_day + 4) 7 ltac:(lia)) as Hwd.
  split; [lia |]. split; [lia |]. split; [| lia].
  clear Hwd. Z.div_mod_to_equations. lia.
Qed.

Lemma get_calendar_week_stored (offset now : Z) (entries : list JournalEntry) :
  get_calendar_week offset now (stored entries)
  = (res_json (EntriesJson
       (List.filter (in_week (startOfWeek offset now) (endOfWeek offset now)) entries)),
     stored entries).
Proof. reflexivity. Qed.



(** X8. West of Greenwich the same route returns the entries dated from
    the Monday after that Sunday up to the following Sunday: an entry's
    date is read as midnight UTC, which is still the evening before on the
    server's clock. *)
Theorem week_west_of_utc_is_monday_to_sunday (offset now : Z) (entries : list JournalEntry) :
  -1440 < offset < 0 →
  let local_day := (now + offset * 60000) / msPerDay in
  let sunday := local_day - (local_day + 4) mod 7 in
  ∃ thisWeek,
    get_calendar_week offset now (stored entries)
      = (res_json (EntriesJson thisWeek), stored entries)
    ∧ (∀ entry day, new_Date (date entry) = Some (day * msPerDay) →
         (entry ∈ thisWeek ↔ entry ∈ entries ∧ sunday + 1 <= day <= sunday + 7)).
Proof.
  intros Hoff local_day sunday.
  destruct (week_bounds offset now) as (Hstart & Hend & _ & _).
  fold local_day sunday in Hstart, Hend.
  eexists. split; [apply get_calendar_week_stored |].
  intros entry day Hdate. rewrite elem_of_List_filter.
  unfold in_week. rewrite Hdate, Hstart, Hend, andb_true_iff, Z.geb_le, Z.ltb_lt.
  unfold msPerDay. intuition lia.
Qed.

Lemma week_west_of_utc_is_monday_to_sunday_witness :
  ∃ thisWeek,
    get_calendar_week edt noon_15_june_edt
        (stored [ dated (Some "2025-06-15"); dated (Some "2025-06-22") ])
      = (res_json (EntriesJson thisWeek),
         stored [ dated (Some "2025-06-15"); dated (Some "2025-06-22") ])
    ∧ (dated (Some "2025-06-15"%string) ∉ thisWeek)
    ∧ (dated (Some "2025-06-22"%string) ∈ thisWeek).
Proof.
  destruct (week_west_of_utc_is_monday_to_sunday edt noon_15_june_edt
              [ dated (Some "2025-06-15"); dated (Some "2025-06-22") ]%string)
    as (thisWeek & Hweek & Hdated); [unfold edt; lia |].
  exists thisWeek. split; [exact Hweek |]. split.
  - intros Hin.
    apply (Hdated (dated (Some "2025-06-15"%string)) 20254) in Hin as [_ [Hge _]];
      [| reflexivity].
    vm_compute in Hge. by apply Hge.
  - apply (Hdated (dated (Some "2025-06-22"%string)) 20261); [reflexivity |].
    split; [| by vm_compute].
    rewrite !elem_of_cons. tauto.
Defined.

End Week.

(** ** From the client to the server and back *)

Section ClientCalls.
Import Js Types Server Api AppState RightPanel Sample.

Lemma digits_prefix_acc (d : Decimal.uint) :
  ∀ p, digits_prefix (Z.pos p) (NilEmpty.string_of_uint d) = Z.pos (Pos.of_uint_acc d p).
Proof.
  induction d as [|d IH|d IH|d IH|d IH|d IH|d IH|d IH|d IH|d IH|d IH]; intros p;
    [reflexivity | ..];
    cbn [NilEmpty.string_of_uint digits_prefix Pos.of_uint_acc];
    match goal with
    | |- context [is_digit ?c] => change (is_digit c) with true
    end;
    cbv iota; rewrite <- IH; f_equal;
    match goal with
    | |- context [digit_val ?c] =>
        let v := eval vm_compute in (digit_val c) in change (digit_val c) with v
    end;
    lia.
Qed.

Lemma digits_prefix_decimal (d : Decimal.uint) :
  digits_prefix 0 (NilEmpty.string_of_uint d) = Z.of_N (Pos.of_uint d).
Proof.
  induction d as [|d IH|d IH|d IH|d IH|d IH|d IH|d IH|d IH|d IH|d IH];
    [reflexivity | exact IH | ..];
    cbn [NilEmpty.string_of_uint digits_prefix Pos.of_uint];
    match goal with
    | |- context [is_digit ?c] => change (is_digit c) with true
    end;
    cbv iota;
    match goal with
    | |- context [digit_val ?c] =>
        let v := eval vm_compute in (digit_val c) in change (digit_val c) with v
    end;
    apply digits_prefix_acc.
Qed.

Lemma digits_prefix_app (s rest : string) :
  all_digits s = true → starts_with_digit rest = false →
  ∀ acc, digits_prefix acc (s +:+ rest) = digits_prefix acc s.
Proof.
  intros Hs Hrest. induction s as [|c s IH]; intros acc.
  - change ("" +:+ rest) with rest.
    destruct rest as [|c rest]; [done |].
    cbn [starts_with_digit] in Hrest. cbn [digits_prefix]. by rewrite Hrest.
  - change (String c s +:+ rest) with (String c (s +:+ rest)).
    cbn [all_digits] in Hs. apply andb_true_iff in Hs as [Hc Hs].
    cbn [digits_prefix]. rewrite Hc. by apply IH.
Qed.

Lemma all_digits_decimal (d : Decimal.uint) : all_digits (NilEmpty.string_of_uint d) = true.
Proof. induction d; simpl; done. Qed.

Lemma parseInt_starting_with_digit (s : string) :
  starts_with_digit s = true → parseInt s = Some (digits_prefix 0 s).
Proof.
  destruct s as [|c s]; [discriminate |]. intros Hc. cbn [starts_with_digit] in Hc.
  destruct c as [[] [] [] [] [] [] [] []];
    first [ by vm_compute in Hc | reflexivity ].
Qed.

Lemma String_of_digits (n : N) :
  all_digits (String_of n) = true
  ∧ starts_with_digit (String_of n) = true
  ∧ digits_prefix 0 (String_of n) = Z.of_N n.
Proof.
  unfold String_of, NilZero.string_of_uint.
  pose proof (DecimalN.Unsigned.of_to n) as Hn. unfold N.of_uint in Hn.
  destruct (N.to_uint n) as [|d|d|d|d|d|d|d|d|d|d] eqn:Hd;
    (split; [try reflexivity; apply (all_digits_decimal (_ d)) |]);
    (split; [reflexivity |]);
    rewrite <- Hn; try reflexivity; apply (digits_prefix_decimal (_ d)).
Qed.

Lemma parseInt_String_of_then (n : N) (rest : string) :
  starts_with_digit rest = false →
  parseInt (String_of n +:+ rest) = Some (Z.of_N n).
Proof.
  intros Hrest. destruct (String_of_digits n) as (Hall & Hstart & Hvalue).
  rewrite parseInt_starting_with_digit.
  - by rewrite digits_prefix_app, Hvalue.
  - destruct (String_of n); [discriminate | exact Hstart].
Qed.

Lemma String_append_empty (s : string) : s +:+ "" = s.
Proof.
  induction s as [|c s IH]; [reflexivity |].
  change (String c s +:+ "") with (String c (s +:+ "")). by rewrite IH.
Qed.

Lemma parseInt_String_of (n : N) : parseInt (String_of n) = Some (Z.of_N n).
Proof.
  rewrite <- (String_append_empty (String_of n)). by apply parseInt_String_of_then.
Qed.

(** X9. The index travels intact: the digits the client writes into the
    path for an index are read back by [parseInt] as that index; anything
    after the digits that is not a digit is ignored, white space before
    them is skipped, and a minus sign gives the negative. *)
Theorem index_round_trip (n : N) :
  parseInt (String_of n) = Some (Z.of_N n)
  ∧ (∀ rest, starts_with_digit rest = false →
       parseInt (String_of n +:+ rest) = Some (Z.of_N n))
  ∧ parseInt (" " +:+ String_of n) = Some (Z.of_N n)
  ∧ parseInt ("-" +:+ String_of n) = Some (- Z.of_N n).
Proof.
  split; [apply parseInt_String_of |].
  split; [intros rest; apply parseInt_String_of_then |].
  destruct (String_of_digits n) as (_ & Hstart & Hvalue).
  split.
  - change (parseInt (" " +:+ String_of n)) with (parseInt (String_of n)).
    apply parseInt_String_of.
  - change ("-" +:+ String_of n) with (String "-" (String_of n)).
    change (parseInt (String "-" (String_of n)))
      with (Z.opp <$> parse_unsigned (String_of n)).
    unfold parse_unsigned. by rewrite Hstart, Hvalue.
Qed.

Lemma put_writes (env : Env) (index_param : string) (index : Z) (body : UpdateBody)
    (entries : list JournalEntry) (entry : JournalEntry) :
  parseInt index_param = Some index → 0 <= index →
  entries !! Z.to_nat index = Some entry →
  write env = Written →
  put_journal_entry env index_param body (stored entries)
  = (res_json (EntryJson (merge_entry entry body)),
     stored (<[Z.to_nat index := merge_entry entry body]> entries)).
Proof.
  intros Hparse Hpos Hentry Hwrite.
  pose proof (lookup_lt_Some _ _ _ Hentry) as Hlt.
  unfold put_journal_entry, try_catch, bind.
  rewrite Hparse, getAll_stored, (range_guard_false _ _ Hpos Hlt), Hentry.
  unfold fs_writeFile. rewrite Hwrite. by rewrite list_lookup_insert_eq.
Qed.

Lemma delete_writes (env : Env) (index_param : string) (index : Z)
    (entries : list JournalEntry) :
  parseInt index_param = Some index → 0 <= index →
  (Z.to_nat index < length entries)%nat →
  write env = Written →
  delete_journal_entry env index_param (stored entries)
  = (res_json SuccessJson, stored (delete (Z.to_nat index) entries)).
Proof.
  intros Hparse Hpos Hlt Hwrite.
  unfold delete_journal_entry, try_catch, bind.
  rewrite Hparse, getAll_stored, (range_guard_false _ _ Hpos Hlt).
  unfold fs_writeFile. by rewrite Hwrite.
Qed.

Lemma parseInt_of_id (i : nat) :
  parseInt (String_of (N.of_nat i)) = Some (Z.of_nat i).
Proof. rewrite parseInt_String_of. f_equal. lia. Qed.

Lemma loadJournalEntries_stored (entries : list JournalEntry) (old : list Note) :
  loadJournalEntries (stored entries) old = (withIds entries, stored entries).
Proof. reflexivity. Qed.

Lemma find_imap_mkNote (l : list JournalEntry) :
  ∀ k i, List.find (λ n, (id n =? k + i)%nat) (imap (λ j, mkNote (k + j)) l)
         = mkNote (k + i) <$> l !! i.
Proof.
  induction l as [|e l IH]; intros k i; [done |].
  cbn [imap List.find id]. destruct i as [|i].
  - by rewrite Nat.add_0_r, Nat.eqb_refl.
  - destruct (Nat.eqb_spec (k + 0) (k + S i)) as [Heq | _]; [lia |].
    cbn [lookup list_lookup].
    replace (k + S i)%nat with (S k + i)%nat by lia.
    erewrite imap_ext; [apply (IH (S k) i) |].
    intros j x _. simpl. f_equal. lia.
Qed.

Lemma selectedNote_withIds (data : list JournalEntry) (i : nat) :
  selectedNote (Some i) (withIds data) = mkNote i <$> data !! i.
Proof. apply (find_imap_mkNote data 0 i). Qed.

(** X10. Editing reaches the note that was opened.  The entries are loaded
    from a stored collection, a note is picked by the id it got on loading
    and an update is sent for it: the entry at that position of the file,
    and no other, gets the fields of the body, and the reloaded list shows
    it under the same id. *)
Theorem edit_reaches_selected_note (env : Env) (entries : list JournalEntry)
    (i : nat) (e : JournalEntry) (body : Changes) :
  entries !! i = Some e →
  write env = Written →
  let calendarEntries := (loadJournalEntries (stored entries) []).1 in
  let updated := merge_entry e (JSON_body body) in
  selectedNote (Some i) calendarEntries = Some (mkNote i e)
  ∧ onUpdateNote env i body (stored entries) calendarEntries
    = (Resolved tt, withIds (<[i := updated]> entries), stored (<[i := updated]> entries))
  ∧ selectedNote (Some i) (withIds (<[i := updated]> entries)) = Some (mkNote i updated)
  ∧ (∀ j, j ≠ i →
       selectedNote (Some j) (withIds (<[i := updated]> entries))
       = selectedNote (Some j) calendarEntries).
Proof.
  intros He Hwrite calendarEntries updated.
  pose proof (lookup_lt_Some _ _ _ He) as Hlt.
  unfold calendarEntries. rewrite loadJournalEntries_stored. cbn [fst].
  split; [by rewrite selectedNote_withIds, He |].
  split.
  - unfold onUpdateNote, updateJournalEntry.
    rewrite (put_writes env _ (Z.of_nat i) _ entries e);
      [| apply parseInt_of_id | lia | by rewrite Nat2Z.id | done].
    rewrite Nat2Z.id. cbn [ok status res_json Nat.leb andb].
    by rewrite loadJournalEntries_stored.
  - split.
    + by rewrite selectedNote_withIds, list_lookup_insert_eq.
    + intros j Hj. by rewrite !selectedNote_withIds, list_lookup_insert_ne.
Qed.

Lemma edit_reaches_selected_note_witness :
  onUpdateNote quiet_env 1 (mkChanges (Some "X") None None) (stored sample_entries)
      (withIds sample_entries)
    = (Resolved tt,
       withIds (<[1%nat := merge_entry (sample_entry "2025-06-15" "second")
                             (JSON_body (mkChanges (Some "X") None None))]> sample_entries),
       stored (<[1%nat := merge_entry (sample_entry "2025-06-15" "second")
                            (JSON_body (mkChanges (Some "X") None None))]> sample_entries)).
Proof.
  destruct (edit_reaches_selected_note quiet_env sample_entries 1
              (sample_entry "2025-06-15" "second") (mkChanges (Some "X") None None))
    as (_ & Hupdate & _); [reflexivity | reflexivity |].
  exact Hupdate.
Defined.

(** X11. Deleting a note renumbers the ones after it.  When the note with
    id [i] is deleted and the entries are loaded again, a note that had a
    smaller id keeps it and the entry of every later note is found under
    the id one below. *)
Theorem delete_renumbers_notes (env : Env) (entries : list JournalEntry) (i : nat) :
  (i < length entries)%nat →
  write env = Written →
  ∃ reloaded,
    onDeleteNote env i (stored entries) (withIds entries)
      = (Resolved tt, reloaded, stored (delete i entries))
    ∧ length reloaded = (length entries - 1)%nat
    ∧ (∀ j, (j < i)%nat →
         selectedNote (Some j) reloaded = selectedNote (Some j) (withIds entries))
    ∧ (∀ j, (i ≤ j)%nat →
         entry <$> selectedNote (Some j) reloaded
         = entry <$> selectedNote (Some (S j)) (withIds entries)).
Proof.
  intros Hlt Hwrite. exists (withIds (delete i entries)). split.
  - unfold onDeleteNote, deleteJournalEntry.
    rewrite (delete_writes env _ (Z.of_nat i) entries);
      [| apply parseInt_of_id | lia | by rewrite Nat2Z.id | done].
    rewrite Nat2Z.id. cbn [ok status res_json Nat.leb andb].
    by rewrite loadJournalEntries_stored.
  - split.
    { unfold withIds. rewrite length_imap. by apply length_delete, lookup_lt_is_Some_2. }
    split.
    + intros j Hj. by rewrite !selectedNote_withIds, list_lookup_delete_lt.
    + intros j Hj. rewrite !selectedNote_withIds, list_lookup_delete_ge by done.
      by destruct (entries !! S j).
Qed.

Lemma delete_renumbers_notes_witness :
  ∃ reloaded,
    onDeleteNote quiet_env 0 (stored sample_entries) (withIds sample_entries)
      = (Resolved tt, reloaded, stored (delete 0%nat sample_entries))
    ∧ entry <$> selectedNote (Some 0%nat) reloaded
      = Some (sample_entry "2025-06-15" "second").
Proof.
  destruct (delete_renumbers_notes quiet_env sample_entries 0)
    as (reloaded & Hdel & _ & _ & Hafter); [simpl; lia | reflexivity |].
  exists reloaded. split; [exact Hdel |].
  exact (Hafter 0%nat (Nat.le_refl 0)).
Defined.

(** X12. The label of the creation button and the two lists of the side
    bar apply the same test.  For a date that is not empty, the label is
    "Add Memory" exactly when an entry with that date is listed among the
    memories; and when the date can be read, it is "Add Reminder" exactly
    when such an entry is listed among the reminders. *)
Theorem createLabel_matches_lists (offset now : Z) (d : string) (e : JournalEntry) :
  d ≠ ""%string →
  date e = Some d →
  (createLabel offset now (Some d) = "Add Memory"%string
   ↔ App.is_memory offset (App.today offset now) e = true)
  ∧ (new_Date (Some d) ≠ None →
     (createLabel offset now (Some d) = "Add Reminder"%string
      ↔ App.is_reminder offset (App.today offset now) e = true)).
Proof.
  intros Hd He. unfold createLabel, App.is_memory, App.is_reminder, App.today.
  rewrite He. destruct (String.eqb_spec d ""); [done |].
  destruct (new_Date (Some d)) as [parsed|]; [| by split].
  rewrite Z.geb_leb, Z.leb_antisym.
  destruct (setHours0 offset parsed <? setHours0 offset now); by split.
Qed.

Lemma createLabel_matches_lists_witness :
  createLabel edt noon_15_june_edt (Some "2025-06-15"%string) = "Add Memory"%string
  ↔ App.is_memory edt (App.today edt noon_15_june_edt) (dated (Some "2025-06-15"%string))
    = true.
Proof.
  apply (createLabel_matches_lists edt noon_15_june_edt "2025-06-15"); [discriminate | reflexivity].
Defined.


End ClientCalls.

(** ** The creation form *)

Section CreationForm.
Import Js Types Server Api AppState RightPanel Sample.







End CreationForm.

(** ** What a day cell shows *)

Section DayCellProperties.
Import Js Types AppState RightPanel DayCells Sample.

(** The notes of [journalEntries] dated [d], in their order. *)
Lemma dayEntries_snoc (d : string) (l : list Note) (e : Note) :
  dayEntries (Some d) (l ++ [e])
  = dayEntries (Some d) l
    ++ (if String.eqb d "" then []
        else match date (entry e) with
             | Some d' => if String.eqb d' d then [e] else []
             | None => []
             end).
Proof.
  unfold dayEntries. destruct (String.eqb d ""); [done |].
  rewrite List.filter_app. cbn [List.filter].
  destruct (date (entry e)) as [d'|]; [destruct (String.eqb d' d) |]; done.
Qed.

(** The state of [entriesByDate] after the notes seen so far: a property
    for each date that occurred, holding the notes of that date. *)
Lemma group_entry_invariant (l : list Note) (o : Obj (list Note)) (e : Note) :
  (∀ d, d ≠ ""%string →
     own o d = (if decide (dayEntries (Some d) l = []) then None
                else Some (dayEntries (Some d) l))) →
  own o "" = None →
  match date (entry e) with
  | Some d => inherited d = false
  | None => True
  end →
  ∃ o', group_entry o e = Some o'
        ∧ own o' "" = None
        ∧ ∀ d, d ≠ ""%string →
            own o' d = (if decide (dayEntries (Some d) (l ++ [e]) = []) then None
                        else Some (dayEntries (Some d) (l ++ [e]))).
Proof.
  intros Hinv Hempty Hplain. unfold group_entry.
  destruct (date (entry e)) as [de|] eqn:Hde.
  - destruct (String.eqb_spec de "") as [-> | Hne].
    + exists o. split; [done |]. split; [done |].
      intros d Hd. rewrite dayEntries_snoc, Hde.
      destruct (String.eqb_spec d ""); [done |].
      destruct (String.eqb_spec "" d); [congruence |].
      rewrite app_nil_r. by apply Hinv.
    + pose proof (Hinv de Hne) as Hown.
      destruct (own o de) as [notes|] eqn:Hode.
      * exists (update_own o de (λ notes, notes ++ [e])).
        split; [done |]. split.
        { rewrite own_update_own. destruct (String.eqb_spec "" de); [congruence | done]. }
        intros d Hd. rewrite own_update_own, dayEntries_snoc, Hde.
        destruct (String.eqb_spec d ""); [done |].
        destruct (String.eqb_spec d de) as [-> | Hdne].
        -- rewrite String.eqb_refl, Hode.
           destruct (decide (dayEntries (Some de) l = [])) as [| _]; [done |].
           injection Hown as ->. cbn [fmap option_fmap option_map].
           destruct (decide _) as [Hnil | _]; [by apply app_eq_nil in Hnil as [_ ?] | done].
        -- destruct (String.eqb_spec de d); [congruence |].
           rewrite app_nil_r. by apply Hinv.
      * rewrite Hplain. exists (o ++ [(de, [e])]).
        split; [done |]. split.
        { rewrite own_app, Hempty. cbn [own]. destruct (String.eqb_spec "" de); [congruence | done]. }
        intros d Hd. rewrite own_app, dayEntries_snoc, Hde.
        destruct (String.eqb_spec d ""); [done |].
        destruct (String.eqb_spec d de) as [-> | Hdne].
        -- rewrite String.eqb_refl, Hode. cbn [own]. rewrite String.eqb_refl.
           destruct (decide (dayEntries (Some de) l = [])) as [-> | _]; [| done].
           cbn [app]. by destruct (decide _).
        -- destruct (String.eqb_spec de d); [congruence |].
           rewrite app_nil_r, (Hinv d Hd). cbn [own].
           destruct (String.eqb_spec d de); [congruence |].
           by destruct (decide (dayEntries (Some d) l = [])).
  - exists o. split; [done |]. split; [done |].
    intros d Hd. rewrite dayEntries_snoc, Hde.
    destruct (String.eqb d ""); rewrite app_nil_r; by apply Hinv.
Qed.

Lemma entriesByDate_groups (journalEntries : list Note) :
  Forall (λ e, match date (entry e) with
               | Some d => inherited d = false
               | None => True
               end) journalEntries →
  ∃ o, entriesByDate journalEntries = Some o
       ∧ own o "" = None
       ∧ ∀ d, d ≠ ""%string →
           own o d = (if decide (dayEntries (Some d) journalEntries = []) then None
                      else Some (dayEntries (Some d) journalEntries)).
Proof.
  induction journalEntries as [|e l IH] using rev_ind; intros Hplain.
  - exists []. split; [done |]. split; [done |].
    intros d Hd. unfold dayEntries. by destruct (String.eqb d "").
  - apply Forall_app in Hplain as [Hl He]. rewrite Forall_singleton in He.
    destruct (IH Hl) as (o & Ho & Hempty & Hinv).
    destruct (group_entry_invariant l o e Hinv Hempty He) as (o' & Ho' & Hempty' & Hinv').
    exists o'. unfold entriesByDate in *. rewrite fold_left_app. simpl.
    rewrite Ho. by split.
Qed.

(** X15. The calendar and the day panel show the same notes.  When no
    entry is dated with a name that objects inherit, the calendar's map is
    built, and for every date that is neither empty nor such a name the
    cell of that date holds exactly the notes the day panel lists for it,
    in the same order. *)
Theorem cell_shows_day_entries (journalEntries : list Note) (d : string) :
  Forall (λ e, match date (entry e) with
               | Some d => inherited d = false
               | None => True
               end) journalEntries →
  d ≠ ""%string →
  inherited d = false →
  ∃ o, entriesByDate journalEntries = Some o
       ∧ cell_entries o d = Some (dayEntries (Some d) journalEntries).
Proof.
  intros Hplain Hd Hinh.
  destruct (entriesByDate_groups journalEntries Hplain) as (o & Ho & _ & Hinv).
  exists o. split; [done |]. unfold cell_entries. rewrite (Hinv d Hd), Hinh.
  by destruct (decide (dayEntries (Some d) journalEntries = [])) as [-> |].
Qed.

Lemma cell_shows_day_entries_witness :
  ∃ o, entriesByDate (withIds sample_entries) = Some o
       ∧ cell_entries o "2025-06-15"
         = Some (dayEntries (Some "2025-06-15"%string) (withIds sample_entries)).
Proof.
  apply cell_shows_day_entries; [repeat constructor | discriminate | reflexivity].
Defined.

Lemma entriesByDate_thrown (l : list Note) :
  fold_left (λ acc e, acc ≫= λ o, group_entry o e) l None = None.
Proof. by induction l. Qed.

Lemma first_inherited_date (l : list Note) :
  Forall (λ e, match date (entry e) with
               | Some d => inherited d = false
               | None => True
               end) l
  ∨ ∃ l1 e d l2, l = l1 ++ e :: l2
                 ∧ Forall (λ e, match date (entry e) with
                                | Some d => inherited d = false
                                | None => True
                                end) l1
                 ∧ date (entry e) = Some d ∧ inherited d = true.
Proof.
  induction l as [|e l IH]; [by left |].
  destruct (date (entry e)) as [d|] eqn:Hd.
  - destruct (inherited d) eqn:Hinh.
    + right. by exists [], e, d, l.
    + destruct IH as [Hl | (l1 & e' & d' & l2 & -> & Hl1 & He')].
      * left. constructor; [by rewrite Hd | done].
      * right. exists (e :: l1), e', d', l2. split; [done |].
        split; [constructor; [by rewrite Hd | done] | done].
  - destruct IH as [Hl | (l1 & e' & d' & l2 & -> & Hl1 & He')].
    + left. constructor; [by rewrite Hd | done].
    + right. exists (e :: l1), e', d', l2. split; [done |].
      split; [constructor; [by rewrite Hd | done] | done].
Qed.

Lemma dayEntries_inherited (d : string) (l : list Note) :
  inherited d = true →
  Forall (λ e, match date (entry e) with
               | Some d => inherited d = false
               | None => True
               end) l →
  dayEntries (Some d) l = [].
Proof.
  intros Hinh Hl. unfold dayEntries. destruct (String.eqb d ""); [done |].
  induction Hl as [|e l He _ IH]; [done |]. cbn [List.filter].
  destruct (date (entry e)) as [d'|]; [| done].
  destruct (String.eqb_spec d' d); [congruence | done].
Qed.

(** X16. One ill-dated entry takes the calendar down.  Building the map
    from dates to notes throws exactly when some entry is dated with a name
    that every object inherits, such as ["constructor"] or ["toString"];
    the entries before it and after it do not matter. *)
Theorem calendar_throws_on_inherited_date (journalEntries : list Note) :
  entriesByDate journalEntries = None
  ↔ Exists (λ e, ∃ d, date (entry e) = Some d ∧ inherited d = true) journalEntries.
Proof.
  destruct (first_inherited_date journalEntries)
    as [Hplain | (l1 & e & d & l2 & -> & Hl1 & Hd & Hinh)].
  - destruct (entriesByDate_groups journalEntries Hplain) as (o & -> & _).
    split; [done |]. intros Hbad. exfalso.
    induction Hplain as [|e l He _ IH].
    + by apply Exists_nil in Hbad.
    + apply Exists_cons in Hbad as [(d & Hd & Hinh) | Hbad]; [| by apply IH].
      rewrite Hd in He. congruence.
  - split; [| intros _].
    + intros _. apply Exists_app. right. apply Exists_cons. left. by exists d.
    + destruct (entriesByDate_groups l1 Hl1) as (o & Ho & _ & Hinv).
      unfold entriesByDate in *. rewrite fold_left_app. cbn [fold_left].
      rewrite Ho. cbn [mbind option_bind]. unfold group_entry at 2.
      assert (d ≠ ""%string) as Hne by (by intros ->).
      rewrite Hd, (Hinv d Hne), (dayEntries_inherited d l1 Hinh Hl1), Hinh.
      destruct (String.eqb_spec d ""); [done |].
      cbn. apply entriesByDate_thrown.
Qed.

End DayCellProperties.

Section ForecastMap.
Import Js Weather DayCells Sample.
Context {Temp : Type}.
Implicit Types (forecast : list (WeatherSummary Temp)) (map : Obj (WeatherSummary Temp)).

Lemma own_set_own {V} (o : Obj V) (k k' : string) (v : V) :
  own (set_own o k v) k' = if String.eqb k' k then Some v else own o k'.
Proof.
  unfold set_own. destruct (own o k) as [old|] eqn:Hk.
  - rewrite own_update_own. destruct (String.eqb_spec k' k) as [-> |]; [| done].
    by rewrite Hk.
  - rewrite own_app. cbn [own]. destruct (String.eqb_spec k' k) as [-> |].
    + by rewrite Hk.
    + by destruct (own o k').
Qed.

(** X17. The weather of a day cell.  When no summary is dated
    ["__proto__"], the map from dates to summaries is built, and for every
    date that is not empty it holds the last summary of the forecast with
    that date, and nothing when there is none; so a cell whose date is not
    an inherited name shows that summary or no weather. *)
Theorem forecastByDate_last_wins forecast :
  Forall (λ day, date day ≠ "__proto__"%string) forecast →
  ∃ map,
    forecastByDate forecast = Some map
    ∧ (∀ d, d ≠ ""%string → own map d = last (dated_summaries d forecast))
    ∧ (∀ d, inherited d = false →
         cell_weather map d
         = Some (if String.eqb d "" then None else last (dated_summaries d forecast))).
Proof.
  intros Hproto.
  assert (∃ map, forecastByDate forecast = Some map
                 ∧ own map "" = None
                 ∧ ∀ d, d ≠ ""%string → own map d = last (dated_summaries d forecast))
    as (map & Hmap & Hempty & Hown).
  { induction forecast as [|day forecast IH] using rev_ind.
    - by exists [].
    - apply Forall_app in Hproto as [Hforecast Hday]. rewrite Forall_singleton in Hday.
      destruct (IH Hforecast) as (map & Hmap & Hempty & Hown).
      unfold forecastByDate in *. rewrite fold_left_app. cbn [fold_left]. rewrite Hmap.
      cbn [mbind option_bind].
      destruct (String.eqb_spec (date day) "") as [Hnone | Hsome].
      + exists map. split; [done |]. split; [done |].
        intros d Hd. unfold dated_summaries. rewrite List.filter_app. cbn [List.filter].
        destruct (String.eqb_spec (date day) d); [congruence |].
        rewrite app_nil_r. by apply Hown.
      + destruct (String.eqb_spec (date day) "__proto__"); [done |].
        exists (set_own map (date day) day). split; [done |]. split.
        * rewrite own_set_own. by destruct (String.eqb_spec "" (date day)).
        * intros d Hd. rewrite own_set_own.
          unfold dated_summaries. rewrite List.filter_app. cbn [List.filter].
          destruct (String.eqb_spec d (date day)) as [-> | Hne].
          -- by rewrite String.eqb_refl, last_snoc.
          -- destruct (String.eqb_spec (date day) d); [congruence |].
             rewrite app_nil_r. by apply Hown. }
  exists map. split; [done |]. split; [done |].
  intros d Hinh. unfold cell_weather.
  destruct (String.eqb_spec d "") as [-> | Hd]; [done |].
  rewrite (Hown d Hd), Hinh. by destruct (last _).
Qed.

End ForecastMap.

Section ForecastMapExample.
Import Js Weather DayCells Sample.

Lemma forecastByDate_last_wins_witness :
  ∃ map,
    forecastByDate (fetchFiveDayForecast Z.ltb (Some samples)) = Some map
    ∧ cell_weather map "2025-06-15"
      = Some (last (dated_summaries "2025-06-15" (fetchFiveDayForecast Z.ltb (Some samples)))).
Proof.
  destruct (forecastByDate_last_wins (fetchFiveDayForecast Z.ltb (Some samples)))
    as (map & Hmap & _ & Hcell).
  - repeat constructor; discriminate.
  - exists map. split; [exact Hmap |]. exact (Hcell "2025-06-15"%string eq_refl).
Defined.

End ForecastMapExample.

(** ** Calendar arithmetic *)

Section CalendarArithmetic.
Import Js LocalDate.

Lemma DayFromYear_next (y : Z) :
  DayFromYear (y + 1) = DayFromYear y + (if InLeapYear y then 366 else 365).
Proof.
  unfold DayFromYear, InLeapYear.
  destruct (Z.eqb_spec (y mod 4) 0), (Z.eqb_spec (y mod 100) 0), (Z.eqb_spec (y mod 400) 0);
    cbn [andb orb negb]; Z.div_mod_to_equations; lia.
Qed.

Lemma DayFromYear_estimate (y : Z) :
  -506 <= 400 * DayFromYear y - 146097 * (y - 1970) <= 589.
Proof. unfold DayFromYear. Z.div_mod_to_equations. lia. Qed.

Lemma YearFromDay_unique (y n : Z) :
  DayFromYear y <= n < DayFromYear (y + 1) → YearFromDay n = y.
Proof.
  intros Hn. unfold YearFromDay.
  set (y0 := 1970 + 400 * n / 146097).
  pose proof (DayFromYear_estimate y) as Hy.
  pose proof (DayFromYear_estimate (y + 1)) as Hy1.
  assert (y - 1 <= y0 <= y + 1) as Hy0.
  { unfold y0. Z.div_mod_to_equations. lia. }
  pose proof (DayFromYear_next (y - 1)) as Hprev.
  replace (y - 1 + 1) with y in Hprev by lia.
  pose proof (DayFromYear_next y) as Hnext.
  pose proof (DayFromYear_next (y + 1)) as Hnext1.
  assert (y0 = y - 1 ∨ y0 = y ∨ y0 = y + 1) as [-> | [-> | ->]] by lia.
  - replace (y - 1 + 1) with y by lia.
    destruct (Z.ltb_spec n (DayFromYear (y - 1))); [destruct (InLeapYear (y - 1)); lia |].
    destruct (Z.leb_spec (DayFromYear y) n); lia.
  - destruct (Z.ltb_spec n (DayFromYear y)); [lia |].
    destruct (Z.leb_spec (DayFromYear (y + 1)) n); lia.
  - destruct (Z.ltb_spec n (DayFromYear (y + 1))); [lia |]. lia.
Qed.

Lemma month_cases (m : Z) :
  1 <= m <= 12 →
  m = 1 ∨ m = 2 ∨ m = 3 ∨ m = 4 ∨ m = 5 ∨ m = 6
  ∨ m = 7 ∨ m = 8 ∨ m = 9 ∨ m = 10 ∨ m = 11 ∨ m = 12.
Proof. lia. Qed.

Lemma DaysBeforeMonth_table (y m : Z) :
  1 <= m <= 12 →
  DaysBeforeMonth y m
  = (if m =? 1 then 0 else if m =? 2 then 31
     else (if InLeapYear y then 1 else 0)
          + (if m =? 3 then 59 else if m =? 4 then 90 else if m =? 5 then 120
             else if m =? 6 then 151 else if m =? 7 then 181 else if m =? 8 then 212
             else if m =? 9 then 243 else if m =? 10 then 273
             else if m =? 11 then 304 else 334)).
Proof.
  intros Hm.
  destruct (month_cases m Hm) as [-> | [-> | [-> | [-> | [-> | [-> | [-> | [-> | [-> | [-> | [-> | ->]]]]]]]]]]];
    unfold DaysBeforeMonth, DaysInMonth; destruct (InLeapYear y); reflexivity.
Qed.

Lemma local_date_round_trip (y m d : Z) :
  1 <= m <= 12 →
  1 <= d <= DaysInMonth y m →
  YearFromDay (MakeDay y m d) = y
  ∧ MonthFromDay (MakeDay y m d) = m - 1
  ∧ DateFromDay (MakeDay y m d) = d.
Proof.
  intros Hm Hd.
  pose proof (DayFromYear_next y) as Hnext.
  pose proof (DaysBeforeMonth_table y m Hm) as Htable.
  assert (YearFromDay (MakeDay y m d) = y
          ∧ MakeDay y m d - DayFromYear y = DaysBeforeMonth y m + (d - 1)) as [Hyear Hday].
  { split; [| unfold MakeDay; lia].
    apply YearFromDay_unique. unfold MakeDay. rewrite Hnext, Htable.
    destruct (month_cases m Hm) as [-> | [-> | [-> | [-> | [-> | [-> | [-> | [-> | [-> | [-> | [-> | ->]]]]]]]]]]];
      unfold DaysInMonth in Hd; cbn in Hd |- *; destruct (InLeapYear y); lia. }
  unfold DateFromDay, MonthFromDay, DayWithinYear, leap_day.
  rewrite Hyear, Hday, Htable. clear Hyear Hday Hnext Htable.
  destruct (month_cases m Hm) as [-> | [-> | [-> | [-> | [-> | [-> | [-> | [-> | [-> | [-> | [-> | ->]]]]]]]]]]];
    unfold DaysInMonth in Hd; cbn in Hd; cbn [Z.eqb Pos.eqb];
    destruct (InLeapYear y);
    repeat match goal with
           | |- context [?a <? ?b] => destruct (Z.ltb_spec a b); try lia
           end;
    split; lia.
Qed.

Lemma YearFromDay_spec (n : Z) :
  DayFromYear (YearFromDay n) <= n < DayFromYear (YearFromDay n + 1).
Proof.
  unfold YearFromDay. set (y0 := 1970 + 400 * n / 146097).
  assert (146097 * (y0 - 1970) <= 400 * n < 146097 * (y0 - 1969)) as Hest
    by (unfold y0; Z.div_mod_to_equations; lia).
  pose proof (DayFromYear_estimate (y0 - 1)) as Hprev.
  pose proof (DayFromYear_estimate (y0 + 2)) as Hnext2.
  destruct (Z.ltb_spec n (DayFromYear y0)).
  { replace (y0 - 1 + 1) with y0 by lia. lia. }
  destruct (Z.leb_spec (DayFromYear (y0 + 1)) n); [| lia].
  replace (y0 + 1 + 1) with (y0 + 2) by lia. lia.
Qed.

Lemma MonthFromDay_range (n : Z) : 0 <= MonthFromDay n <= 11.
Proof.
  unfold MonthFromDay.
  repeat match goal with
         | |- context [?a <? ?b] => destruct (a <? b)
         end; lia.
Qed.

Lemma DateFromDay_range (n : Z) : 1 <= DateFromDay n <= 31.
Proof.
  pose proof (YearFromDay_spec n) as Hn.
  pose proof (DayFromYear_next (YearFromDay n)) as Hnext.
  unfold DateFromDay, MonthFromDay, DayWithinYear, leap_day.
  destruct (InLeapYear (YearFromDay n));
    repeat match goal with
           | |- context [?a <? ?b] => destruct (Z.ltb_spec a b)
           end; lia.
Qed.

End CalendarArithmetic.

(** ** The month grid *)

Section Grid.
Import Js LocalDate MonthGrid Api.

Lemma MakeFullYear_id (y : Z) : ¬ (0 <= y <= 99) → MakeFullYear y = y.
Proof.
  intros Hy. unfold MakeFullYear.
  destruct (Z.leb_spec 0 y), (Z.leb_spec y 99); simpl; lia.
Qed.

Lemma new_Date_ymd_in_month (y m k : Z) :
  ¬ (0 <= y <= 99) → 1 <= m <= 12 →
  new_Date_ymd y (m - 1) k = MakeDay y m k.
Proof.
  intros Hy Hm. unfold new_Date_ymd. rewrite MakeFullYear_id by done.
  rewrite Z.div_small, Z.mod_small by lia. f_equal; lia.
Qed.

Lemma last_day_of_month (y m : Z) :
  ¬ (0 <= y <= 99) → 1 <= m <= 12 →
  new_Date_ymd y m 0 = MakeDay y m (DaysInMonth y m).
Proof.
  intros Hy Hm. unfold new_Date_ymd. rewrite MakeFullYear_id by done.
  pose proof (DayFromYear_next y) as Hnext.
  destruct (decide (m = 12)) as [-> | Hm12].
  - change (12 / 12) with 1. change (12 mod 12 + 1) with 1.
    unfold MakeDay. rewrite !DaysBeforeMonth_table by lia. rewrite Hnext.
    unfold DaysInMonth. change (12 =? 2) with false.
    change (1 =? 1) with true. change (12 =? 1) with false.
    cbv beta iota. destruct (InLeapYear y); vm_compute Z.eqb; cbn [orb]; lia.
  - rewrite Z.div_small, Z.mod_small by lia. replace (y + 0) with y by lia.
    unfold MakeDay. rewrite !DaysBeforeMonth_table by lia.
    unfold DaysInMonth. destruct (InLeapYear y);
      repeat (match goal with
              | |- context [?a =? ?b] => destruct (Z.eqb_spec a b)
              end; cbn [orb]; try lia).
Qed.

Lemma first_weekday_range (n : Z) : 0 <= WeekDay n < 7.
Proof. unfold WeekDay. apply Z.mod_pos_bound. lia. Qed.

Lemma DaysInMonth_range (y m : Z) : 28 <= DaysInMonth y m <= 31.
Proof.
  unfold DaysInMonth.
  destruct (m =? 2); [destruct (InLeapYear y); lia |]. destruct (_ || _); lia.
Qed.

Lemma cells_in_month (y m d : Z) :
  ¬ (0 <= y <= 99) → 1 <= m <= 12 → 1 <= d <= DaysInMonth y m →
  cells (MakeDay y m d)
  = replicate (Z.to_nat (WeekDay (MakeDay y m 1))) (mkCell None None)
    ++ ((λ k, mkCell (Some (String_of_Z y +:+ "-" +:+ padStart2 (String_of_Z m)
                            +:+ "-" +:+ padStart2 (String_of_Z k)))
                     (Some k))
          <$> days_up_to (DaysInMonth y m)).
Proof.
  intros Hy Hm Hd.
  destruct (local_date_round_trip y m d Hm Hd) as (Hyear & Hmonth & _).
  pose proof (DaysInMonth_range y m) as Hlen.
  unfold cells. rewrite Hyear, Hmonth.
  rewrite (new_Date_ymd_in_month y m 1) by done.
  replace (m - 1 + 1) with m by lia.
  rewrite (last_day_of_month y m) by done.
  destruct (local_date_round_trip y m (DaysInMonth y m) Hm ltac:(lia)) as (_ & _ & ->).
  f_equal. unfold days_up_to. rewrite <- !list_fmap_compose.
  apply list_fmap_ext. intros i k Hk. cbn [compose].
  apply lookup_seq in Hk as [-> Hi].
  rewrite (new_Date_ymd_in_month y m) by done.
  destruct (local_date_round_trip y m (Z.of_nat (1 + i)) Hm ltac:(lia)) as (Hy' & Hm' & Hd').
  unfold formatDate. rewrite Hy', Hm', Hd'.
  by replace (m - 1 + 1) with m by lia.
Qed.

(** X18. The grid of the calendar.  Whatever day of a month the current
    date is, the cells are: as many blanks as the week day of the first of
    the month (none for a Sunday), then one cell for each day of the month
    from 1 to its last day, in order and nothing after it; the cell of day
    [k] carries [k] and the date written as year, month and day, the last
    two padded to two digits. *)
Theorem month_grid (y m d : Z) :
  ¬ (0 <= y <= 99) →
  1 <= m <= 12 →
  1 <= d <= DaysInMonth y m →
  cells (MakeDay y m d)
  = replicate (Z.to_nat (WeekDay (MakeDay y m 1))) (mkCell None None)
    ++ ((λ k, mkCell (Some (String_of_Z y +:+ "-" +:+ padStart2 (String_of_Z m)
                            +:+ "-" +:+ padStart2 (String_of_Z k)))
                     (Some k))
          <$> days_up_to (DaysInMonth y m))
  ∧ length (cells (MakeDay y m d))
    = Z.to_nat (WeekDay (MakeDay y m 1) + DaysInMonth y m)
  ∧ 0 <= WeekDay (MakeDay y m 1) < 7.
Proof.
  intros Hy Hm Hd.
  pose proof (first_weekday_range (MakeDay y m 1)) as Hfirst.
  pose proof (DaysInMonth_range y m) as Hlen.
  split; [by apply cells_in_month |]. split; [| done].
  rewrite cells_in_month, length_app, length_replicate, length_fmap by done.
  unfold days_up_to. rewrite length_fmap, length_seq. lia.
Qed.

Lemma month_grid_witness :
  length (cells (MakeDay 2025 10 17)) = Z.to_nat (3 + 31)
  ∧ take 4 (cells (MakeDay 2025 10 17))
    = [ mkCell None None; mkCell None None; mkCell None None;
        mkCell (Some "2025-10-01"%string) (Some 1) ].
Proof.
  destruct (month_grid 2025 10 17) as (Hcells & Hlength & _);
    [lia | lia | by vm_compute |].
  split; [exact Hlength |]. rewrite Hcells. reflexivity.
Defined.

End Grid.

Section GridDates.
Import Js LocalDate MonthGrid Api.

Lemma four_digit_years_table :
  forallb (λ n, match String_of_Z (Z.of_nat n) with
                | String a (String b (String c (String d EmptyString))) =>
                    match two_digits a b, two_digits c d with
                    | Some h, Some l => (h =? Z.of_nat n / 100) && (l =? Z.of_nat n mod 100)
                    | _, _ => false
                    end
                | _ => false
                end) (seq (Z.to_nat 1000) (Z.to_nat 9000)) = true.
Proof. vm_compute. reflexivity. Qed.

Lemma four_digit_year (y : Z) :
  1000 <= y <= 9999 →
  ∃ a b c d, String_of_Z y = String a (String b (String c (String d EmptyString)))
             ∧ two_digits a b = Some (y / 100) ∧ two_digits c d = Some (y mod 100).
Proof.
  intros Hy. pose proof four_digit_years_table as Htable.
  rewrite forallb_forall in Htable.
  specialize (Htable (Z.to_nat y)). rewrite Z2Nat.id in Htable by lia.
  assert (In (Z.to_nat y) (seq (Z.to_nat 1000) (Z.to_nat 9000))) as Hin by (apply in_seq; lia).
  specialize (Htable Hin).
  destruct (String_of_Z y) as [|a [|b [|c [|d [|? ?]]]]]; try discriminate.
  exists a, b, c, d. split; [done |].
  destruct (two_digits a b) as [h|]; [| discriminate].
  destruct (two_digits c d) as [l|]; [| discriminate].
  apply andb_prop in Htable as [Hh Hl].
  apply Z.eqb_eq in Hh, Hl. by subst.
Qed.

Lemma padded_table :
  forallb (λ n, match padStart2 (String_of_Z (Z.of_nat n)) with
                | String a (String b EmptyString) =>
                    match two_digits a b with
                    | Some k => k =? Z.of_nat n
                    | None => false
                    end
                | _ => false
                end
                && String.eqb (pad2 (Z.of_nat n)) (padStart2 (String_of_Z (Z.of_nat n))))
          (seq 0 100) = true.
Proof. vm_compute. reflexivity. Qed.

Lemma padded (k : Z) :
  0 <= k <= 99 →
  pad2 k = padStart2 (String_of_Z k)
  ∧ ∃ a b, padStart2 (String_of_Z k) = String a (String b EmptyString)
           ∧ two_digits a b = Some k.
Proof.
  intros Hk. pose proof padded_table as Htable.
  rewrite forallb_forall in Htable.
  specialize (Htable (Z.to_nat k)). rewrite Z2Nat.id in Htable by lia.
  assert (In (Z.to_nat k) (seq 0 100)) as Hin by (apply in_seq; lia).
  specialize (Htable Hin). apply andb_prop in Htable as [Hdigits Hpad].
  split; [by apply String.eqb_eq |].
  destruct (padStart2 (String_of_Z k)) as [|a [|b [|? ?]]]; try discriminate.
  exists a, b. split; [done |].
  destruct (two_digits a b) as [k'|]; [| discriminate].
  apply Z.eqb_eq in Hdigits. by subst.
Qed.

Lemma Date_parse_formatted (y m k : Z) :
  1000 <= y <= 9999 → 1 <= m <= 12 → 1 <= k <= DaysInMonth y m →
  Date_parse (String_of_Z y +:+ "-" +:+ padStart2 (String_of_Z m)
              +:+ "-" +:+ padStart2 (String_of_Z k))
  = Some (MakeDay y m k * msPerDay).
Proof.
  intros Hy Hm Hk.
  pose proof (DaysInMonth_range y m) as Hlen.
  destruct (four_digit_year y Hy) as (a & b & c & d & -> & Hab & Hcd).
  destruct (padded m ltac:(lia)) as (_ & m1 & m2 & -> & Hmm).
  destruct (padded k ltac:(lia)) as (_ & k1 & k2 & -> & Hkk).
  cbv beta iota delta [String.append]. unfold Date_parse.
  change (Ascii.eqb "-" "-") with true. cbn [andb].
  rewrite Hab, Hcd, Hmm, Hkk. cbn [mbind option_bind].
  replace (100 * (y / 100) + y mod 100) with y by (Z.div_mod_to_equations; lia).
  destruct (Z.leb_spec 1 m); [| lia]. destruct (Z.leb_spec m 12); [| lia].
  destruct (Z.leb_spec 1 k); [| lia]. destruct (Z.leb_spec k (DaysInMonth y m)); [| lia].
  reflexivity.
Qed.

(** X19. What a day cell hands on.  In a month of a year from 1000 to
    9999, every cell of the grid that carries a date carries a day [k] of
    that month, and its date string is one that [new Date] reads back as
    midnight UTC of that same calendar day; the blanks carry neither. *)
Theorem cell_dates_parse (y m d : Z) (c : Cell) :
  1000 <= y <= 9999 →
  1 <= m <= 12 →
  1 <= d <= DaysInMonth y m →
  c ∈ cells (MakeDay y m d) →
  (date c = None ∧ dayOfMonth c = None)
  ∨ ∃ k s, dayOfMonth c = Some k ∧ date c = Some s
           ∧ 1 <= k <= DaysInMonth y m
           ∧ new_Date (Some s) = Some (MakeDay y m k * msPerDay).
Proof.
  intros Hy Hm Hd Hc.
  rewrite cells_in_month in Hc by (done || lia).
  apply elem_of_app in Hc as [Hblank | Hday].
  - left. apply elem_of_replicate in Hblank as [-> _]. done.
  - right. apply list_elem_of_fmap in Hday as (k & -> & Hk).
    unfold days_up_to in Hk. apply list_elem_of_fmap in Hk as (i & -> & Hi).
    apply elem_of_seq in Hi.
    eexists _, _. split; [reflexivity |]. split; [reflexivity |].
    split; [lia |]. cbn [new_Date mbind option_bind].
    apply Date_parse_formatted; lia.
Qed.

Lemma cell_dates_parse_witness :
  ∃ k s, dayOfMonth (mkCell (Some "2024-02-29"%string) (Some 29)) = Some k
         ∧ date (mkCell (Some "2024-02-29"%string) (Some 29)) = Some s
         ∧ 1 <= k <= DaysInMonth 2024 2
         ∧ new_Date (Some s) = Some (MakeDay 2024 2 k * msPerDay).
Proof.
  destruct (cell_dates_parse 2024 2 10 (mkCell (Some "2024-02-29"%string) (Some 29)))
    as [[Hblank _] | Hday]; [lia | lia | by vm_compute | | discriminate Hblank | exact Hday].
  vm_compute. do 32 apply list_elem_of_further. apply list_elem_of_here.
Defined.

(** X20. The two calendars agree.  For every current date, the small
    month of the side bar has exactly the cells of the main calendar: the
    same number of leading blanks, the same days, and for each day the
    same date string, although one pads with [pad2] and the other with
    [padStart]. *)
Theorem mini_month_agrees (currentMonth : Z) :
  mini_cells currentMonth
  = (λ c, mkMiniCell (dayOfMonth c) (date c)) <$> cells currentMonth.
Proof.
  unfold mini_cells, cells. rewrite fmap_app, fmap_replicate. f_equal.
  rewrite <- list_fmap_compose. apply list_fmap_ext. intros i k _. cbn [compose dayOfMonth date].
  f_equal. f_equal. unfold toYMD, formatDate.
  set (n := new_Date_ymd _ _ k).
  pose proof (MonthFromDay_range n). pose proof (DateFromDay_range n).
  destruct (padded (MonthFromDay n + 1) ltac:(lia)) as [-> _].
  destruct (padded (DateFromDay n) ltac:(lia)) as [-> _].
  reflexivity.
Qed.

End GridDates.

(** ** Moving between months *)

Section MonthNavigation.
Import Js LocalDate Navigation.

Ltac month_lengths :=
  unfold DaysInMonth in *;
  repeat (match goal with
          | |- context [?a =? ?b] => destruct (Z.eqb_spec a b)
          | H : context [?a =? ?b] |- _ => destruct (Z.eqb_spec a b)
          end; cbn [orb] in *; try lia).

Lemma DaysBeforeMonth_next (y m : Z) :
  1 <= m < 12 → DaysBeforeMonth y (m + 1) = DaysBeforeMonth y m + DaysInMonth y m.
Proof.
  intros Hm. rewrite !DaysBeforeMonth_table by lia.
  unfold DaysInMonth. destruct (InLeapYear y); month_lengths.
Qed.

Lemma MakeDay_runs_on (y m d : Z) :
  1 <= m < 12 → MakeDay y m d = MakeDay y (m + 1) (d - DaysInMonth y m).
Proof. intros Hm. unfold MakeDay. rewrite DaysBeforeMonth_next by done. lia. Qed.

Lemma short_month (y m d : Z) :
  1 <= m <= 12 → DaysInMonth y m < d <= 31 →
  1 < m < 12 ∧ DaysInMonth y (m + 1) = 31 ∧ DaysInMonth y (m - 1) = 31.
Proof.
  intros Hm Hd. unfold DaysInMonth in *. destruct (InLeapYear y); month_lengths.
Qed.

Lemma goToNextMonth_MakeDay (y m d : Z) :
  1 <= m <= 12 → 1 <= d <= DaysInMonth y m →
  goToNextMonth (MakeDay y m d)
  = MakeDay (if m =? 12 then y + 1 else y) (if m =? 12 then 1 else m + 1) d.
Proof.
  intros Hm Hd. unfold goToNextMonth, setMonth.
  destruct (local_date_round_trip y m d Hm Hd) as (-> & -> & ->).
  replace (m - 1 + 1) with m by lia.
  destruct (Z.eqb_spec m 12) as [-> | Hm12]; [reflexivity |].
  rewrite Z.div_small, Z.mod_small by lia. f_equal. lia.
Qed.

Lemma goToPrevMonth_MakeDay (y m d : Z) :
  1 <= m <= 12 → 1 <= d <= DaysInMonth y m →
  goToPrevMonth (MakeDay y m d)
  = MakeDay (if m =? 1 then y - 1 else y) (if m =? 1 then 12 else m - 1) d.
Proof.
  intros Hm Hd. unfold goToPrevMonth, setMonth.
  destruct (local_date_round_trip y m d Hm Hd) as (-> & -> & ->).
  destruct (Z.eqb_spec m 1) as [-> | Hm1]; [reflexivity |].
  rewrite Z.div_small, Z.mod_small by lia. f_equal; lia.
Qed.

(** X21. The next month, and the month it skips.  From day [d] of month
    [m], [goToNextMonth] shows the following month, on the same day [d],
    when that month has a day [d]; when it is too short (from the 31st
    into a month of 30 days, from the 29th to the 31st of January into
    February), the date runs on and the calendar shows the month after
    the following one: the following month is skipped. *)
Theorem next_month_may_skip (y m d : Z) :
  1 <= m <= 12 →
  1 <= d <= DaysInMonth y m →
  let y' := if m =? 12 then y + 1 else y in
  let m' := if m =? 12 then 1 else m + 1 in
  let shown := goToNextMonth (MakeDay y m d) in
  (d <= DaysInMonth y' m' →
   YearFromDay shown = y' ∧ MonthFromDay shown = m' - 1 ∧ DateFromDay shown = d)
  ∧ (DaysInMonth y' m' < d →
     YearFromDay shown = y' ∧ MonthFromDay shown = m'
     ∧ DateFromDay shown = d - DaysInMonth y' m').
Proof.
  intros Hm Hd y' m' shown.
  assert (1 <= m' <= 12) as Hm' by (unfold m'; destruct (Z.eqb_spec m 12); lia).
  pose proof (DaysInMonth_range y m) as Hlen.
  unfold shown. rewrite goToNextMonth_MakeDay by done. fold y' m'.
  split; intros Hfit.
  - apply local_date_round_trip; lia.
  - destruct (short_month y' m' d Hm' ltac:(lia)) as (Hshort & Hnext & _).
    rewrite MakeDay_runs_on by lia.
    pose proof (DaysInMonth_range y' m') as Hlen'.
    destruct (local_date_round_trip y' (m' + 1) (d - DaysInMonth y' m') ltac:(lia) ltac:(lia))
      as (-> & -> & ->).
    split; [done |]. split; [lia | done].
Qed.

Lemma next_month_may_skip_witness :
  MonthFromDay (goToNextMonth (MakeDay 2025 1 31)) = 2
  ∧ DateFromDay (goToNextMonth (MakeDay 2025 1 31)) = 31 - DaysInMonth 2025 2
  ∧ MonthFromDay (goToNextMonth (MakeDay 2025 1 15)) = 2 - 1.
Proof.
  destruct (next_month_may_skip 2025 1 31) as [_ Hskip]; [lia | by vm_compute |].
  destruct (next_month_may_skip 2025 1 15) as [Hfit _]; [lia | by vm_compute |].
  destruct Hskip as (_ & Hmonth & Hdate); [by vm_compute |].
  destruct Hfit as (_ & Hmonth' & _); [by vm_compute |].
  split; [exact Hmonth |]. split; [exact Hdate | exact Hmonth'].
Defined.

(** X22. The previous month, and the month that stays.  From day [d] of
    month [m], [goToPrevMonth] shows the month before, on the same day,
    when that month has a day [d]; when it is too short (from the 31st of
    a month that follows one of 30 days, from the 29th to the 31st of
    March), the date runs on into month [m] itself: the calendar still
    shows the month it showed, on an earlier day. *)
Theorem prev_month_may_stay (y m d : Z) :
  1 <= m <= 12 →
  1 <= d <= DaysInMonth y m →
  let y' := if m =? 1 then y - 1 else y in
  let m' := if m =? 1 then 12 else m - 1 in
  let shown := goToPrevMonth (MakeDay y m d) in
  (d <= DaysInMonth y' m' →
   YearFromDay shown = y' ∧ MonthFromDay shown = m' - 1 ∧ DateFromDay shown = d)
  ∧ (DaysInMonth y' m' < d →
     YearFromDay shown = y ∧ MonthFromDay shown = m - 1
     ∧ DateFromDay shown = d - DaysInMonth y' m' ∧ DateFromDay shown < d).
Proof.
  intros Hm Hd y' m' shown.
  assert (1 <= m' <= 12) as Hm' by (unfold m'; destruct (Z.eqb_spec m 1); lia).
  pose proof (DaysInMonth_range y m) as Hlen.
  unfold shown. rewrite goToPrevMonth_MakeDay by done. fold y' m'.
  split; intros Hfit.
  - apply local_date_round_trip; lia.
  - destruct (short_month y' m' d Hm' ltac:(lia)) as (Hshort & _).
    pose proof (DaysInMonth_range y' m') as Hlen'.
    assert (y' = y ∧ m' + 1 = m) as [Hy' Hmm'].
    { unfold y', m' in *. destruct (Z.eqb_spec m 1); lia. }
    rewrite MakeDay_runs_on by lia. rewrite Hmm', Hy'. rewrite Hy' in Hlen', Hfit.
    destruct (local_date_round_trip y m (d - DaysInMonth y m') Hm ltac:(lia))
      as (-> & -> & ->).
    repeat split; lia.
Qed.

Lemma prev_month_may_stay_witness :
  MonthFromDay (goToPrevMonth (MakeDay 2025 7 31)) = 7 - 1
  ∧ DateFromDay (goToPrevMonth (MakeDay 2025 7 31)) = 31 - DaysInMonth 2025 6
  ∧ MonthFromDay (goToPrevMonth (MakeDay 2025 1 15)) = 12 - 1.
Proof.
  destruct (prev_month_may_stay 2025 7 31) as [_ Hstay]; [lia | by vm_compute |].
  destruct (prev_month_may_stay 2025 1 15) as [Hfit _]; [lia | by vm_compute |].
  destruct Hstay as (_ & Hmonth & Hdate & _); [by vm_compute |].
  destruct Hfit as (_ & Hmonth' & _); [by vm_compute |].
  split; [exact Hmonth |]. split; [exact Hdate | exact Hmonth'].
Defined.

(** X23. Back and forth.  From a day up to the 28th, going to the next
    month and then to the previous one, or the other way round, comes back
    to the very same date. *)
Theorem next_then_prev (y m d : Z) :
  1 <= m <= 12 →
  1 <= d <= 28 →
  goToPrevMonth (goToNextMonth (MakeDay y m d)) = MakeDay y m d
  ∧ goToNextMonth (goToPrevMonth (MakeDay y m d)) = MakeDay y m d.
Proof.
  intros Hm Hd.
  pose proof (DaysInMonth_range y m) as Hlen.
  split.
  - rewrite (goToNextMonth_MakeDay y m d) by lia.
    set (y' := if m =? 12 then y + 1 else y). set (m' := if m =? 12 then 1 else m + 1).
    assert (1 <= m' <= 12) as Hm' by (unfold m'; destruct (Z.eqb_spec m 12); lia).
    pose proof (DaysInMonth_range y' m') as Hlen'.
    rewrite goToPrevMonth_MakeDay by lia. unfold y', m'.
    destruct (Z.eqb_spec m 12) as [-> | Hm12]; [change (1 =? 1) with true; f_equal; lia |].
    destruct (Z.eqb_spec (m + 1) 1); [lia |]. f_equal; lia.
  - rewrite (goToPrevMonth_MakeDay y m d) by lia.
    set (y' := if m =? 1 then y - 1 else y). set (m' := if m =? 1 then 12 else m - 1).
    assert (1 <= m' <= 12) as Hm' by (unfold m'; destruct (Z.eqb_spec m 1); lia).
    pose proof (DaysInMonth_range y' m') as Hlen'.
    rewrite goToNextMonth_MakeDay by lia. unfold y', m'.
    destruct (Z.eqb_spec m 1) as [-> | Hm1]; [change (12 =? 12) with true; f_equal; lia |].
    destruct (Z.eqb_spec (m - 1) 12); [lia |]. f_equal; lia.
Qed.

Lemma next_then_prev_witness :
  goToPrevMonth (goToNextMonth (MakeDay 2025 12 24)) = MakeDay 2025 12 24
  ∧ goToNextMonth (goToPrevMonth (MakeDay 2025 12 24)) = MakeDay 2025 12 24.
Proof. apply (next_then_prev 2025 12 24); lia. Defined.

End MonthNavigation.
